(** * chaosmeta: container-runtime client factory, process executor,
      target analyzer and phase handler

    A shallow embedding of
      - pkg/crclient/client.go          (module [crclient]),
      - pkg/utils/cmdexec/cmd.go        (module [cmdexec]),
      - the selector package's analyzer (module [selector]),
      - the recover phase handler as its test and the design document
        describe it (module [phasehandler]),
    followed by the properties proved about them.

    Conventions.  A Go [error] is [option string]: [None] is [nil] and
    [Some m] is an error whose [Error()] text is [m] (every error built in
    these files comes from [fmt.Errorf]).  A Go multi-value return is a
    tuple in the order of the Go signature.  [context.Context] arguments
    only reach the logger and the absent collaborators, so they are left
    out of the signatures. *)

From Stdlib Require Import ZArith Lia Bool.
From Stdlib Require Import Strings.Ascii Numbers.DecimalString.
From stdpp Require Import base option list gmap strings.

Local Open Scope Z_scope.

Abbreviation error := (option string).

(** [fmt.Sprintf("%d", n)] for a Go [int]. *)
Definition fmt_d (n : Z) : string := NilZero.string_of_int (Z.to_int n).

(** * Package strings (the part cmd.go uses) *)
Module strings.

(** [strings.Index(s, substr)]: offset of the first instance of [substr]
    in [s], or -1 when there is none. *)
Definition Index (s substr : string) : Z :=
  match String.index 0 substr s with
  | Some n => Z.of_nat n
  | None => -1
  end.

(** "[s] contains [sub]": [sub] occurs somewhere inside [s]. *)
Definition Contains (s sub : string) : Prop :=
  ∃ pre post : string, s = pre +:+ sub +:+ post.

End strings.

(** * Package crclient *)
Module crclient.

Definition CrDocker : string := "docker".
Definition CrContainerd : string := "containerd".

(** The [Client] interface, one field per method.  The [timeout] of
    [RestartContainerById] is a nullable duration. *)
Record Client := {
  GetPidById : string → Z * error;
  ListId : list string * error;
  KillContainerById : string → error;
  RmFContainerById : string → error;
  RestartContainerById : string → option Z → error;
  GetCgroupPath : string → string → string * error;
  ExecContainer : string → list string → string → error
}.

Section Factory.
(** What [docker.GetClient(ctx)] returns; package docker is a
    collaborator of this file. *)
Variable docker_GetClient : option Client * error.

Definition GetClient (cr : string) : option Client * error :=
  if decide (cr = CrDocker) then docker_GetClient
  else if decide (cr = CrContainerd) then (None, Some "to be supported")
  else (None, Some ("not support container runtime: " +:+ cr)).
End Factory.

End crclient.

(** * Package cmdexec *)
Module cmdexec.

(** [InjectCheckInterval], in milliseconds. *)
Definition InjectCheckInterval : Z := 200.
Definition execnsKey : string := "chaosmeta_execns".

(** How a Go call ends: it returns, it panics (nil dereference), or the
    model's step budget ran out before it returned. *)
Inductive outcome (A : Type) : Type :=
| Returned (a : A)
| Panicked
| StillWaiting.
Arguments Returned {A} a.
Arguments Panicked {A}.
Arguments StillWaiting {A}.

(** What the two [bytes.Buffer]s hold when the timer fires for the
    [k]-th time (k = 0 is the first expiry): (stdout, stderr). *)
Definition buffers := nat → string * string.

(** The [for] loop of [waitProExec]: [tick] timer expiries have been
    consumed so far; on exit it yields the number of the expiry at which
    the buffers were first seen non-empty, and [msg]. *)
Fixpoint poll (fuel : nat) (tick : nat) (buf : buffers) : option (nat * string) :=
  match fuel with
  | O => None
  | S fuel' =>
      let '(stdout, stderr) := buf tick in
      if bool_decide (stderr ≠ "") || bool_decide (stdout ≠ "")
      then Some (tick, stdout +:+ stderr)
      else poll fuel' (S tick) buf
  end.

(** The part of [waitProExec] after the loop. *)
Definition classify (msg : string) : error :=
  if bool_decide (strings.Index msg "error" >= 0)
  then Some ("inject error: " +:+ msg)
  else if bool_decide (strings.Index msg "[success]" >= 0)
  then None
  else Some ("unexpected output: " +:+ msg).

Definition waitProExec (fuel : nat) (buf : buffers) : outcome error :=
  match poll fuel 0 buf with
  | Some (_, msg) => Returned (classify msg)
  | None => StillWaiting
  end.

(** Milliseconds [waitProExec] has spent on the timer channel when it
    leaves the loop at expiry number [tick]. *)
Definition waited (tick : nat) : Z := (Z.of_nat tick + 1) * InjectCheckInterval.

(** The operating system as seen through [os/exec]: what happens when a
    command is started. *)
Record child := {
  start_err : error;        (* result of [c.Start()] *)
  Pid : Z;                  (* [c.Process.Pid] once started *)
  output : buffers          (* what the child writes, over time *)
}.

(** The processes spawned so far: argv and pid, oldest first. *)
Definition spawned := list (list string * Z).

Section Exec.
(** [exec.Command(name, arg...)] followed by [Start]. *)
Variable os : list string → child.
(** [utils.NoPid] and [utils.GetToolPath]. *)
Variable NoPid : Z.
Variable GetToolPath : string → string.
Variable docker_GetClient : option crclient.Client * error.

Definition StartBashCmdAndWaitPid (fuel : nat) (cmd : string) (w : spawned)
  : outcome (Z * error) * spawned :=
  let argv := ["/bin/bash"; "-c"; cmd] in
  let c := os argv in
  match start_err c with
  | Some e => (Returned (NoPid, Some ("cmd start error: " +:+ e)), w)
  | None =>
      let w' := w ++ [(argv, Pid c)] in
      match waitProExec fuel (output c) with
      | Returned (Some e) =>
          (Returned (Pid c, Some ("wait process exec error: " +:+ e)), w')
      | Returned None => (Returned (Pid c, None), w')
      | Panicked => (Panicked, w')
      | StillWaiting => (StillWaiting, w')
      end
  end.

Definition StartBashCmdAndWaitByUser (fuel : nat) (cmd user : string) (w : spawned)
  : outcome error * spawned :=
  let argv := ["runuser"; "-l"; user; "-c"; cmd] in
  let c := os argv in
  match start_err c with
  | Some e => (Returned (Some ("cmd start error: " +:+ e)), w)
  | None =>
      let w' := w ++ [(argv, Pid c)] in
      match waitProExec fuel (output c) with
      | Returned (Some e) =>
          (Returned (Some ("wait process exec error: " +:+ e)), w')
      | Returned None => (Returned None, w')
      | Panicked => (Panicked, w')
      | StillWaiting => (StillWaiting, w')
      end
  end.

(** The command line [ExecContainer] hands to bash:
    [fmt.Sprintf("%s %d %s %s", tool, targetPid, namespaces, cmd)]. *)
Definition execnsCmd (targetPid : Z) (namespaces cmd : string) : string :=
  GetToolPath execnsKey +:+ " " +:+ fmt_d targetPid +:+ " "
    +:+ namespaces +:+ " " +:+ cmd.

Definition ExecContainer (fuel : nat) (cmd cr containerId namespaces : string)
    (w : spawned) : outcome (Z * error) * spawned :=
  match crclient.GetClient docker_GetClient cr with
  | (_, Some e) =>
      (Returned (NoPid, Some ("get cr[" +:+ cr +:+ "] client error: " +:+ e)), w)
  | (None, None) => (Panicked, w)
  | (Some client, None) =>
      match crclient.GetPidById client containerId with
      | (_, Some e) =>
          (Returned (NoPid, Some ("get pid of container[" +:+ containerId
                                  +:+ "]'s init process error: " +:+ e)), w)
      | (targetPid, None) =>
          StartBashCmdAndWaitPid fuel (execnsCmd targetPid namespaces cmd) w
      end
  end.
End Exec.

End cmdexec.

(** * Package selector (the analyzer) *)
Module selector.

(** [corev1.ContainerStatus], [corev1.Pod], [corev1.Node]: the fields the
    analyzer reads. *)
Record ContainerStatus := {
  cs_Name : string;
  cs_ContainerID : string
}.

Record Pod := {
  pod_Name : string;
  pod_Namespace : string;
  pod_UID : string;
  pod_Spec_NodeName : string;
  pod_Status_PodIP : string;
  pod_Status_HostIP : string;
  pod_Status_ContainerStatuses : list ContainerStatus
}.

Record NodeAddress := {
  addr_Type : string;
  addr_Address : string
}.

Record Node := {
  node_Name : string;
  node_Status_Addresses : list NodeAddress
}.

(** [model.PodObject] and [model.NodeObject]. *)
Record PodObject := {
  PodName : string;
  PodUID : string;
  PodIP : string;
  Namespace : string;
  NodeName : string;
  NodeIP : string;
  ContainerRuntime : string;
  ContainerID : string;
  ContainerName : string
}.

Record NodeObject := {
  no_NodeName : string;
  no_NodeInternalIP : string;
  no_HostName : string;
  no_ContainerRuntime : string;
  no_ContainerID : string
}.

(** The options the analyzer passes to [ApiServer.List]. *)
Inductive ListOption :=
| InNamespace (ns : string)
| MatchingLabels (label : gmap string string)
| MatchingFields (key value : string).

#[global] Instance ListOption_eq_dec : EqDecision ListOption.
Proof. solve_decision. Defined.

(** The [client.Client] behind [Analyzer.ApiServer]: what a [List] of
    pods, respectively nodes, answers for the given options. *)
Record Analyzer := {
  ApiServer_ListPods : list ListOption → list Pod * error;
  ApiServer_ListNodes : list ListOption → list Node * error
}.

(** [m[k]] on a Go [map[string]bool]: the zero value when [k] is absent. *)
Definition map_get (m : gmap string bool) (k : string) : bool :=
  default false (m !! k).

(** [m := make(map[string]bool); for _, u := range names { m[u] = true }] *)
Definition nameMap (names : list string) : gmap string bool :=
  foldl (λ m u, <[u := true]> m) ∅ names.

Section Resolve.
(** [v1alpha1.FirstContainer] and [model.ParseContainerID], declared in
    packages next to this one. *)
Variable FirstContainer : string.
Variable ParseContainerID : string → string * string * error.

(** The [for ... break] search of [GetTargetContainer]. *)
Fixpoint findContainer (containerName : string) (status : list ContainerStatus)
  : option ContainerStatus :=
  match status with
  | [] => None
  | unitC :: rest =>
      if decide (cs_Name unitC = containerName) then Some unitC
      else findContainer containerName rest
  end.

(** The tail of [GetTargetContainer], from [name = ...Name] on. *)
Definition parseTarget (targetContainerInfo : ContainerStatus)
  : string * string * string * error :=
  let name := cs_Name targetContainerInfo in
  let '(r, id, err) := ParseContainerID (cs_ContainerID targetContainerInfo) in
  match err with
  | Some e =>
      (r, id, name,
       Some ("parse container id[" +:+ cs_ContainerID targetContainerInfo
             +:+ "] error: " +:+ e))
  | None => (r, id, name, None)
  end.

Definition GetTargetContainer (containerName : string) (status : list ContainerStatus)
  : string * string * string * error :=
  match status with
  | [] => ("", "", "", Some "no container in pod")
  | first :: _ =>
      if decide (containerName = FirstContainer) then parseTarget first
      else
        match findContainer containerName status with
        | Some unitC => parseTarget unitC
        | None => ("", "", "", Some ("not found container " +:+ containerName))
        end
  end.

Definition podInfo (unitPod : Pod) : PodObject :=
  {| PodName := pod_Name unitPod;
     PodUID := pod_UID unitPod;
     PodIP := pod_Status_PodIP unitPod;
     Namespace := pod_Namespace unitPod;
     NodeName := pod_Spec_NodeName unitPod;
     NodeIP := pod_Status_HostIP unitPod;
     ContainerRuntime := "";
     ContainerID := "";
     ContainerName := "" |}.

Definition withContainer (p : PodObject) (r id name : string) : PodObject :=
  {| PodName := PodName p;
     PodUID := PodUID p;
     PodIP := PodIP p;
     Namespace := Namespace p;
     NodeName := NodeName p;
     NodeIP := NodeIP p;
     ContainerRuntime := r;
     ContainerID := id;
     ContainerName := name |}.

(** The body of the [range podList.Items] loop of [GetPodListByPodName]:
    [result] is the slice built so far. *)
Fixpoint podNameLoop (podNameMap : gmap string bool) (containerName : string)
    (items : list Pod) (result : list PodObject) : list PodObject * error :=
  match items with
  | [] => (result, None)
  | unitPod :: rest =>
      if negb (map_get podNameMap (pod_Name unitPod))
      then podNameLoop podNameMap containerName rest result
      else if decide (containerName ≠ "") then
        match GetTargetContainer containerName
                (pod_Status_ContainerStatuses unitPod) with
        | (_, _, _, Some e) =>
            ([], Some ("get target container[" +:+ containerName +:+ "] in pod["
                       +:+ pod_Name unitPod +:+ "] error: " +:+ e))
        | (r, id, name, None) =>
            podNameLoop podNameMap containerName rest
              (result ++ [withContainer (podInfo unitPod) r id name])
        end
      else podNameLoop podNameMap containerName rest (result ++ [podInfo unitPod])
  end.

Definition GetPodListByPodName (a : Analyzer) (namespace : string)
    (podName : list string) (containerName : string) : list PodObject * error :=
  match ApiServer_ListPods a [InNamespace namespace] with
  | (_, Some e) => ([], Some ("list pod info error: " +:+ e))
  | (podList, None) =>
      podNameLoop (nameMap podName) containerName podList []
  end.

(** The inner [range unitNode.Status.Addresses] loop: a later address of
    the same type overwrites an earlier one. *)
Definition setAddress (tmpNode : NodeObject) (unitAddress : NodeAddress) : NodeObject :=
  if decide (addr_Type unitAddress = "InternalIP") then
    {| no_NodeName := no_NodeName tmpNode;
       no_NodeInternalIP := addr_Address unitAddress;
       no_HostName := no_HostName tmpNode;
       no_ContainerRuntime := no_ContainerRuntime tmpNode;
       no_ContainerID := no_ContainerID tmpNode |}
  else if decide (addr_Type unitAddress = "Hostname") then
    {| no_NodeName := no_NodeName tmpNode;
       no_NodeInternalIP := no_NodeInternalIP tmpNode;
       no_HostName := addr_Address unitAddress;
       no_ContainerRuntime := no_ContainerRuntime tmpNode;
       no_ContainerID := no_ContainerID tmpNode |}
  else tmpNode.

Definition tmpNode (unitNode : Node) : NodeObject :=
  foldl setAddress
    {| no_NodeName := node_Name unitNode;
       no_NodeInternalIP := "";
       no_HostName := "";
       no_ContainerRuntime := "";
       no_ContainerID := "" |}
    (node_Status_Addresses unitNode).

Definition withRuntime (n : NodeObject) (r id : string) : NodeObject :=
  {| no_NodeName := no_NodeName n;
     no_NodeInternalIP := no_NodeInternalIP n;
     no_HostName := no_HostName n;
     no_ContainerRuntime := r;
     no_ContainerID := id |}.

Fixpoint nodeNameLoop (nodeNameMap : gmap string bool) (containerName : string)
    (items : list Node) (result : list NodeObject) : list NodeObject * error :=
  match items with
  | [] => (result, None)
  | unitNode :: rest =>
      if negb (map_get nodeNameMap (node_Name unitNode))
      then nodeNameLoop nodeNameMap containerName rest result
      else if decide (containerName ≠ "") then
        match ParseContainerID containerName with
        | (_, _, Some e) => ([], Some ("parse container info error: " +:+ e))
        | (r, id, None) =>
            nodeNameLoop nodeNameMap containerName rest
              (result ++ [withRuntime (tmpNode unitNode) r id])
        end
      else nodeNameLoop nodeNameMap containerName rest (result ++ [tmpNode unitNode])
  end.

Definition GetNodeListByNodeName (a : Analyzer) (nodeName : list string)
    (containerName : string) : list NodeObject * error :=
  match ApiServer_ListNodes a [] with
  | (_, Some e) => ([], Some ("list node error: " +:+ e))
  | (nodeList, None) =>
      nodeNameLoop (nameMap nodeName) containerName nodeList []
  end.
End Resolve.

End selector.

(** * Package phasehandler

    Of the phase handlers only a test is at hand, handler_test.go of the
    recover handler; it fixes the shape of the experiment status and the
    calls made on the scope handler. *)
Module phasehandler.

(** The status values and phases the test uses. *)
Inductive StatusType := Created | Running | Success | Failed.
Inductive PhaseType := InjectPhaseType | RecoverPhaseType.

#[global] Instance StatusType_eq_dec : EqDecision StatusType.
Proof. solve_decision. Defined.

Record ExperimentDetailUnit := {
  InjectObjectName : string;
  UID : string;
  du_Status : StatusType
}.

Record ExperimentDetail := {
  Inject : list ExperimentDetailUnit;
  Recover : list ExperimentDetailUnit
}.

Record ExperimentStatus := {
  Phase : PhaseType;
  Status : StatusType;
  Detail : ExperimentDetail
}.

(** [model.AtomicObject], over the object kinds of the analyzer. *)
Inductive AtomicObject :=
| PodAtom (p : selector.PodObject)
| NodeAtom (n : selector.NodeObject).

(** The [ScopeHandler] interface as the test mocks it, for one experiment
    spec: [GetInjectObject(ctx, spec, name)],
    [ExecuteRecover(ctx, obj, uid, "", spec)] and
    [QueryExperiment(ctx, obj, uid, "", spec, phase)], the latter answering
    with the status the target reports. *)
Record ScopeHandler := {
  GetInjectObject : string → option AtomicObject * error;
  ExecuteRecover : AtomicObject → string → error;
  QueryExperiment : AtomicObject → string → PhaseType → option StatusType * error
}.

Definition withStatus (u : ExperimentDetailUnit) (st : StatusType)
  : ExperimentDetailUnit :=
  {| InjectObjectName := InjectObjectName u; UID := UID u; du_Status := st |}.

(** The detail list of the phase the experiment is in. *)
Definition active (st : ExperimentStatus) : list ExperimentDetailUnit :=
  match Phase st with
  | InjectPhaseType => Inject (Detail st)
  | RecoverPhaseType => Recover (Detail st)
  end.

Definition withActive (st : ExperimentStatus) (overall : StatusType)
    (units : list ExperimentDetailUnit) : ExperimentStatus :=
  {| Phase := Phase st;
     Status := overall;
     Detail :=
       match Phase st with
       | InjectPhaseType => {| Inject := units; Recover := Recover (Detail st) |}
       | RecoverPhaseType => {| Inject := Inject (Detail st); Recover := units |}
       end |}.

Definition terminal (st : StatusType) : bool :=
  match st with
  | Success | Failed => true
  | Created | Running => false
  end.

Section Handler.
Variable h : ScopeHandler.

(** Modelled from the spec: the per-target work of [SolveRunning], whose
    code (the phase handler) is not among the files.  "For every target
    currently Running, re-resolve the AtomicObject and call
    QueryExperiment; update the per-target status to the reported terminal
    state.  A query failure for one target marks that target Failed and
    does not affect sibling targets." *)
Definition runningUnit (phase : PhaseType) (u : ExperimentDetailUnit)
  : ExperimentDetailUnit :=
  match GetInjectObject h (InjectObjectName u) with
  | (Some obj, None) =>
      match QueryExperiment h obj (UID u) phase with
      | (Some reported, None) => withStatus u reported
      | _ => withStatus u Failed
      end
  | _ => withStatus u Failed
  end.

(** Modelled from the spec: the per-target work of [SolveCreated] of the
    recover handler, whose code is not among the files.  "Resolve via the
    Scope Handler; dispatch the recover action; on successful dispatch set
    the target's detail status to Running.  A target whose resolution or
    dispatch fails is marked Failed individually." *)
Definition createdUnit (u : ExperimentDetailUnit) : ExperimentDetailUnit :=
  match GetInjectObject h (InjectObjectName u) with
  | (Some obj, None) =>
      match ExecuteRecover h obj (UID u) with
      | None => withStatus u Running
      | Some _ => withStatus u Failed
      end
  | _ => withStatus u Failed
  end.

(** Modelled from the spec: the aggregation [SolveRunning] ends with, whose
    code is not among the files.  "Once every target detail reaches a
    terminal state, aggregate: overall status is Succeeded only if all
    targets succeeded, otherwise Failed."  The spec gives no overall status
    to an experiment without targets; here none of its targets has failed. *)
Definition aggregate (units : list ExperimentDetailUnit) : StatusType :=
  if forallb (λ u, terminal (du_Status u)) units then
    if forallb (λ u, bool_decide (du_Status u = Success)) units
    then Success else Failed
  else Running.

(** Modelled from the spec: [SolveRunning] after the full join of its
    per-target work, whose code is not among the files.  Only an experiment
    that is Running is looked at ("re-invoking on an already-terminal
    experiment must be a no-op"), and in it only the targets that are
    Running. *)
Definition SolveRunning (st : ExperimentStatus) : ExperimentStatus :=
  if decide (Status st = Running) then
    let units :=
      (λ u, if decide (du_Status u = Running) then runningUnit (Phase st) u else u)
        <$> active st in
    withActive st (aggregate units) units
  else st.
End Handler.

(** ** The shared worker pool during one pass *)

(** Where a target's work stands: not yet handed to the pool, holding a
    pool slot, or done. *)
Inductive slot := Waiting | InFlight | Finished.

#[global] Instance slot_eq_dec : EqDecision slot.
Proof. solve_decision. Defined.

(** A pass in progress: [pool_len] is [GetGoroutinePool().GetLen()], the
    pool's outstanding count. *)
Record pass := {
  pool_len : nat;
  targets : list (slot * ExperimentDetailUnit)
}.

Section Pool.
(** The pool size of [common.SetGoroutinePool], the targets a pass works
    on, and its per-target work. *)
Variable size : nat.
Variable needs : ExperimentDetailUnit → bool.
Variable work : ExperimentDetailUnit → ExperimentDetailUnit.

(** The pass begins with nothing outstanding in the pool, as the test
    asserts before it calls the handler. *)
Definition begin (units : list ExperimentDetailUnit) : pass :=
  {| pool_len := 0;
     targets := (λ u, (if needs u then Waiting else Finished, u)) <$> units |}.

(** Modelled from the spec: the fan-out of a pass through the pool, whose
    code (the pool and the phase handler) is not among the files.  "All
    per-target operations are submitted to a fixed-size worker pool": a
    target takes a slot only while the pool has one free, and gives it back
    when its work is done; targets proceed in any order. *)
Inductive step : pass → pass → Prop :=
| step_submit (s : pass) (i : nat) (u : ExperimentDetailUnit) :
    targets s !! i = Some (Waiting, u) →
    (pool_len s < size)%nat →
    step s {| pool_len := S (pool_len s);
              targets := <[i := (InFlight, u)]> (targets s) |}
| step_finish (s : pass) (i : nat) (u : ExperimentDetailUnit) :
    targets s !! i = Some (InFlight, u) →
    step s {| pool_len := pred (pool_len s);
              targets := <[i := (Finished, work u)]> (targets s) |}.

(** Modelled from the spec: the fan-in.  "The phase handler blocks until
    all submissions for that phase have completed before aggregating": the
    pass returns in the states in which every target is done. *)
Definition joined (s : pass) : Prop :=
  Forall (λ t, t.1 = Finished) (targets s).

(** Work left in a pass: two steps for a waiting target, one for a target
    in flight. *)
Definition weight (t : slot * ExperimentDetailUnit) : nat :=
  match t.1 with Waiting => 2 | InFlight => 1 | Finished => 0 end.

Definition remaining (s : pass) : nat := sum_list (weight <$> targets s).

(** The targets that hold a pool slot. *)
Definition flying (t : slot * ExperimentDetailUnit) : nat :=
  match t.1 with InFlight => 1 | Waiting | Finished => 0 end.

Definition in_flight (s : pass) : nat := sum_list (flying <$> targets s).

(** What the entry [t] of a target holds, given the unit [u] the pass
    found for it: the unit itself until the work is done, then the work's
    result (targets that needed no work are done from the start). *)
Definition tracks (u : ExperimentDetailUnit) (t : slot * ExperimentDetailUnit) : Prop :=
  match t.1 with
  | Finished => t.2 = (if needs u then work u else u)
  | Waiting | InFlight => t.2 = u ∧ needs u = true
  end.

(** What holds throughout a pass over [units]. *)
Definition invariant (units : list ExperimentDetailUnit) (s : pass) : Prop :=
  pool_len s = in_flight s
  ∧ (pool_len s ≤ size)%nat
  ∧ Forall2 tracks units (targets s).
End Pool.

End phasehandler.

(** * Concrete collaborators

    Stand-ins for the parts of the system that live outside these files
    (the docker client, the operating system, the container-id parser),
    used to run the definitions above on concrete inputs. *)
Module sample.

Definition NoPid : Z := -1.
Definition GetToolPath (key : string) : string := "/opt/chaosmeta/tools/" +:+ key.
Definition FirstContainer : string := "firstcontainer".

(** Splits [runtime://id]. *)
Definition ParseContainerID (containerID : string) : string * string * error :=
  match String.index 0 "://" containerID with
  | Some n =>
      (String.substring 0 n containerID,
       String.substring (n + 3) (String.length containerID - (n + 3)) containerID,
       None)
  | None => ("", "", Some ("unknown format: " +:+ containerID))
  end.

(** A docker client that knows one container. *)
Definition dockerClient : crclient.Client :=
  {| crclient.GetPidById := λ containerID,
       if decide (containerID = "g3g3g") then (4242, None)
       else (0, Some ("No such container: " +:+ containerID));
     crclient.ListId := (["g3g3g"], None);
     crclient.KillContainerById := λ _, None;
     crclient.RmFContainerById := λ _, None;
     crclient.RestartContainerById := λ _ _, None;
     crclient.GetCgroupPath := λ containerID subSys,
       ("/sys/fs/cgroup/" +:+ subSys +:+ "/docker/" +:+ containerID, None);
     crclient.ExecContainer := λ _ _ _, None |}.

(** A fault tool that reports success at the third timer expiry. *)
Definition slowSuccess : cmdexec.buffers :=
  λ k, if decide (k < 2)%nat then ("", "") else ("[success] inject success", "").

(** A fault tool that reports a failure on stderr at once. *)
Definition fastFailure : cmdexec.buffers :=
  λ _, ("", "error: fault not supported").

(** A process that says something else. *)
Definition chatter : cmdexec.buffers :=
  λ _, ("usage: burn [flags]", "").

(** A process that never writes anything. *)
Definition silent : cmdexec.buffers := λ _, ("", "").

(** An operating system: the empty command cannot be started, commands
    mentioning [burn], [bad] or [help] behave as above, anything else
    stays silent. *)
Definition os (argv : list string) : cmdexec.child :=
  let cmd := default "" (last argv) in
  if decide (cmd = "") then
    {| cmdexec.start_err := Some "exec: no command";
       cmdexec.Pid := 0; cmdexec.output := silent |}
  else if bool_decide (strings.Index cmd "burn" >= 0) then
    {| cmdexec.start_err := None; cmdexec.Pid := 5151; cmdexec.output := slowSuccess |}
  else if bool_decide (strings.Index cmd "bad" >= 0) then
    {| cmdexec.start_err := None; cmdexec.Pid := 5152; cmdexec.output := fastFailure |}
  else if bool_decide (strings.Index cmd "help" >= 0) then
    {| cmdexec.start_err := None; cmdexec.Pid := 5153; cmdexec.output := chatter |}
  else
    {| cmdexec.start_err := None; cmdexec.Pid := 5154; cmdexec.output := silent |}.

Definition statuses : list selector.ContainerStatus :=
  [ {| selector.cs_Name := "nginx"; selector.cs_ContainerID := "docker://g3g3g" |};
    {| selector.cs_Name := "sidecar"; selector.cs_ContainerID := "containerd://a1b2" |} ].

Definition pod (name ip node : string) (cs : list selector.ContainerStatus)
  : selector.Pod :=
  {| selector.pod_Name := name;
     selector.pod_Namespace := "chaosmeta";
     selector.pod_UID := "uid-" +:+ name;
     selector.pod_Spec_NodeName := node;
     selector.pod_Status_PodIP := ip;
     selector.pod_Status_HostIP := "2.2.2.2";
     selector.pod_Status_ContainerStatuses := cs |}.

Definition node (name ip : string) : selector.Node :=
  {| selector.node_Name := name;
     selector.node_Status_Addresses :=
       [ {| selector.addr_Type := "InternalIP"; selector.addr_Address := ip |};
         {| selector.addr_Type := "Hostname"; selector.addr_Address := name |} ] |}.

(** A cluster with three pods in namespace [chaosmeta] (the second one has
    no container status yet) and two nodes; other namespaces are empty. *)
Definition analyzer : selector.Analyzer :=
  {| selector.ApiServer_ListPods := λ opts,
       if decide (opts = [selector.InNamespace "chaosmeta"]) then
         ([ pod "chaosmeta-0" "1.2.3.4" "node-1" statuses;
            pod "chaosmeta-1" "1.2.3.5" "node-1" [];
            pod "chaosmeta-2" "1.2.3.6" "node-2"
              [ {| selector.cs_Name := "nginx";
                   selector.cs_ContainerID := "docker://h4h4h" |} ] ], None)
       else ([], None);
     selector.ApiServer_ListNodes := λ _,
       ([ node "node-1" "2.2.2.1"; node "node-2" "2.2.2.2" ], None) |}.

(** The experiment of [TestRecoverPhaseHandler_SolveRunning]: recover phase,
    Running, two injected pods whose recovery is Running. *)
Definition detail (name uid : string) (st : phasehandler.StatusType)
  : phasehandler.ExperimentDetailUnit :=
  {| phasehandler.InjectObjectName := name;
     phasehandler.UID := uid;
     phasehandler.du_Status := st |}.

Definition exp : phasehandler.ExperimentStatus :=
  {| phasehandler.Phase := phasehandler.RecoverPhaseType;
     phasehandler.Status := phasehandler.Running;
     phasehandler.Detail :=
       {| phasehandler.Inject :=
            [ detail "pod/chaosmeta/chaosmeta-1" "fwaf1" phasehandler.Success;
              detail "pod/chaosmeta/chaosmeta-2" "fwaf2" phasehandler.Success ];
          phasehandler.Recover :=
            [ detail "pod/chaosmeta/chaosmeta-1" "fwaf1" phasehandler.Running;
              detail "pod/chaosmeta/chaosmeta-2" "fwaf2" phasehandler.Running ] |} |}.

(** The recover list of [TestRecoverPhaseHandler_SolveCreated_OneToRunning]:
    one pod whose recovery is Created. *)
Definition created : list phasehandler.ExperimentDetailUnit :=
  [ detail "pod/chaosmeta/chaosmeta-0" "fwaf" phasehandler.Created ].

(** The mocked scope handler of the two tests: every object resolves, the
    recover action is dispatched, every query fails. *)
Definition mockHandler : phasehandler.ScopeHandler :=
  {| phasehandler.GetInjectObject := λ name,
       (Some (phasehandler.PodAtom
                (selector.withContainer
                   (selector.podInfo (pod name "1.2.3.1" "node-1" [])) "docker" "g3g3g1" "")),
        None);
     phasehandler.ExecuteRecover := λ _ _, None;
     phasehandler.QueryExperiment := λ _ _ _, (None, Some "expected fail") |}.

End sample.

(** * Package cmdexec, starting without waiting *)
Module cmdexec_start.

Section Start.
Variable os : list string → cmdexec.child.

(** [exec.Command("/bin/bash", "-c", cmd).Start()]: the error of [Start],
    and the child among the spawned processes when there is none. *)
Definition StartBashCmd (cmd : string) (w : cmdexec.spawned) : error * cmdexec.spawned :=
  let argv := ["/bin/bash"; "-c"; cmd] in
  let c := os argv in
  match cmdexec.start_err c with
  | Some e => (Some e, w)
  | None => (None, w ++ [(argv, cmdexec.Pid c)])
  end.

(** [utils.GetSleepRecoverCmd], of package utils. *)
Variable GetSleepRecoverCmd : Z → string → string.

Definition StartSleepRecover (sleepTime : Z) (uid : string) (w : cmdexec.spawned)
  : error * cmdexec.spawned :=
  StartBashCmd (GetSleepRecoverCmd sleepTime uid) w.
End Start.

End cmdexec_start.

(** * Package selector, the other methods of the analyzer *)
Module analyzer.

Definition HostIPKey : string := ".status.hostIP".
Definition PhaseKey : string := ".status.phase".

(** [appsv1.Deployment] and [model.DeploymentObject]. *)
Record Deployment := {
  deploy_Name : string;
  deploy_Namespace : string
}.

Record DeploymentObject := {
  DeploymentName : string;
  do_Namespace : string
}.

(** The rest of the [client.Client] behind [Analyzer.ApiServer]: [Get] of a
    pod by its [ObjectKey] (namespace, name), and [List] of deployments. *)
Record ApiServer := {
  lists : selector.Analyzer;
  ApiServer_GetPod : string → string → selector.Pod * error;
  ApiServer_ListDeployments : list selector.ListOption → list Deployment * error
}.

Section Resolve.
Variable FirstContainer : string.
Variable ParseContainerID : string → string * string * error.

(** The [range podList.Items] loop of [GetPodListByLabel]. *)
Fixpoint podLabelLoop (containerName : string) (items : list selector.Pod)
    (result : list selector.PodObject) : list selector.PodObject * error :=
  match items with
  | [] => (result, None)
  | unitPod :: rest =>
      if decide (containerName ≠ "") then
        match selector.GetTargetContainer FirstContainer ParseContainerID
                containerName (selector.pod_Status_ContainerStatuses unitPod) with
        | (_, _, _, Some e) =>
            ([], Some ("get target container[" +:+ containerName +:+ "] in pod["
                       +:+ selector.pod_Name unitPod +:+ "] error: " +:+ e))
        | (r, id, name, None) =>
            podLabelLoop containerName rest
              (result ++ [selector.withContainer (selector.podInfo unitPod) r id name])
        end
      else podLabelLoop containerName rest (result ++ [selector.podInfo unitPod])
  end.

Definition GetPodListByLabel (a : ApiServer) (namespace : string)
    (label : gmap string string) (containerName : string)
  : list selector.PodObject * error :=
  match selector.ApiServer_ListPods (lists a)
          [selector.InNamespace namespace; selector.MatchingLabels label] with
  | (_, Some e) => ([], Some ("list pod info by label error: " +:+ e))
  | (podList, None) => podLabelLoop containerName podList []
  end.

Definition GetPodListByLabelInNode (a : ApiServer) (namespace : string)
    (label : gmap string string) (nodeIP : string)
  : list selector.PodObject * error :=
  match selector.ApiServer_ListPods (lists a)
          [selector.InNamespace namespace; selector.MatchingLabels label;
           selector.MatchingFields HostIPKey nodeIP] with
  | (_, Some e) => ([], Some ("list pod in node[" +:+ nodeIP +:+ "] error: " +:+ e))
  | (podList, None) => (selector.podInfo <$> podList, None)
  end.

Definition GetPod (a : ApiServer) (ns podName containerName : string)
  : option selector.PodObject * error :=
  match ApiServer_GetPod a ns podName with
  | (_, Some e) => (None, Some ("get pod error: " +:+ e))
  | (pod, None) =>
      if decide (containerName ≠ "") then
        match selector.GetTargetContainer FirstContainer ParseContainerID
                containerName (selector.pod_Status_ContainerStatuses pod) with
        | (_, _, _, Some e) =>
            (None, Some ("get target container[" +:+ containerName +:+ "] in pod["
                         +:+ selector.pod_Name pod +:+ "] error: " +:+ e))
        | (r, id, name, None) =>
            (Some (selector.withContainer (selector.podInfo pod) r id name), None)
        end
      else (Some (selector.podInfo pod), None)
  end.

(** The [range nodeList.Items] loop of [GetNodeListByLabel]; [result[i]] is
    filled for [i] = 0, 1, ... in turn. *)
Fixpoint nodeLabelLoop (containerName : string) (items : list selector.Node)
    (result : list selector.NodeObject) : list selector.NodeObject * error :=
  match items with
  | [] => (result, None)
  | unitNode :: rest =>
      if decide (containerName ≠ "") then
        match ParseContainerID containerName with
        | (_, _, Some e) => ([], Some ("parse container info error: " +:+ e))
        | (r, id, None) =>
            nodeLabelLoop containerName rest
              (result ++ [selector.withRuntime (selector.tmpNode unitNode) r id])
        end
      else nodeLabelLoop containerName rest (result ++ [selector.tmpNode unitNode])
  end.

Definition GetNodeListByLabel (a : ApiServer) (label : gmap string string)
    (containerName : string) : list selector.NodeObject * error :=
  match selector.ApiServer_ListNodes (lists a) [selector.MatchingLabels label] with
  | (_, Some e) => ([], Some ("list node error: " +:+ e))
  | (nodeList, None) => nodeLabelLoop containerName nodeList []
  end.

(** The address scan of [GetNodeListByNodeIP]: [(unitIP, unitHostName)]. *)
Definition scanAddress (acc : string * string) (unitAddress : selector.NodeAddress)
  : string * string :=
  if decide (selector.addr_Type unitAddress = "InternalIP")
  then (selector.addr_Address unitAddress, acc.2)
  else if decide (selector.addr_Type unitAddress = "Hostname")
  then (acc.1, selector.addr_Address unitAddress)
  else acc.

Fixpoint nodeIPLoop (nodeIPMap : gmap string bool) (containerName : string)
    (items : list selector.Node) (result : list selector.NodeObject)
  : list selector.NodeObject * error :=
  match items with
  | [] => (result, None)
  | unitNode :: rest =>
      let '(unitIP, unitHostName) :=
        foldl scanAddress ("", "") (selector.node_Status_Addresses unitNode) in
      if bool_decide (unitIP = "") || negb (selector.map_get nodeIPMap unitIP)
      then nodeIPLoop nodeIPMap containerName rest result
      else
        let tmpNode :=
          {| selector.no_NodeName := selector.node_Name unitNode;
             selector.no_NodeInternalIP := unitIP;
             selector.no_HostName := unitHostName;
             selector.no_ContainerRuntime := "";
             selector.no_ContainerID := "" |} in
        if decide (containerName ≠ "") then
          match ParseContainerID containerName with
          | (_, _, Some e) => ([], Some ("parse container info error: " +:+ e))
          | (r, id, None) =>
              nodeIPLoop nodeIPMap containerName rest
                (result ++ [selector.withRuntime tmpNode r id])
          end
        else nodeIPLoop nodeIPMap containerName rest (result ++ [tmpNode])
  end.

Definition GetNodeListByNodeIP (a : ApiServer) (nodeIP : list string)
    (containerName : string) : list selector.NodeObject * error :=
  match selector.ApiServer_ListNodes (lists a) [] with
  | (_, Some e) => ([], Some ("list node error: " +:+ e))
  | (nodeList, None) =>
      nodeIPLoop (selector.nameMap nodeIP) containerName nodeList []
  end.

Definition deployInfo (unitDeploy : Deployment) : DeploymentObject :=
  {| DeploymentName := deploy_Name unitDeploy;
     do_Namespace := deploy_Namespace unitDeploy |}.

Definition GetDeploymentListByLabel (a : ApiServer) (namespace : string)
    (label : gmap string string) : list DeploymentObject * error :=
  match ApiServer_ListDeployments a
          [selector.InNamespace namespace; selector.MatchingLabels label] with
  | (_, Some e) => ([], Some ("list deployment info error: " +:+ e))
  | (deployList, None) => (deployInfo <$> deployList, None)
  end.

(** The [range deployList.Items] loop of [GetDeploymentListByName]. *)
Fixpoint deployNameLoop (deployNameMap : gmap string bool) (items : list Deployment)
    (result : list DeploymentObject) : list DeploymentObject :=
  match items with
  | [] => result
  | unitDeploy :: rest =>
      if negb (selector.map_get deployNameMap (deploy_Name unitDeploy))
      then deployNameLoop deployNameMap rest result
      else deployNameLoop deployNameMap rest (result ++ [deployInfo unitDeploy])
  end.

Definition GetDeploymentListByName (a : ApiServer) (namespace : string)
    (name : list string) : list DeploymentObject * error :=
  match ApiServer_ListDeployments a [selector.InNamespace namespace] with
  | (_, Some e) => ([], Some ("list deployment info error: " +:+ e))
  | (deployList, None) => (deployNameLoop (selector.nameMap name) deployList [], None)
  end.
End Resolve.

End analyzer.

(** * Package user (the user service of the platform) *)
Module user.

(** [GrantTypeAccess], [GrantTypeRefresh], [Admin] and the service's own
    [AdminRole]. *)
Definition GrantTypeAccess : string := "access".
Definition GrantTypeRefresh : string := "refresh".
Definition Admin : string := "admin".
Definition AdminRole : string := "admin".

(** [time.Minute] and [time.Hour], in nanoseconds. *)
Definition Minute : Z := 60 * 1000000000.
Definition Hour : Z := 60 * Minute.

(** The model's [user.User], with the fields the service touches. *)
Record User := {
  ID : Z;
  Email : string;
  Password : string;
  Role : string;
  Disabled : bool;
  IsDeleted : bool;
  LastLoginTime : Z
}.

(** [user.User{Email: name}]. *)
Definition userWithEmail (name : string) : User :=
  {| ID := 0; Email := name; Password := ""; Role := ""; Disabled := false;
     IsDeleted := false; LastLoginTime := 0 |}.

(** The claims of a verified token. *)
Record TokenClaims := {
  Username : string;
  GrantType : string
}.

Section Service.
(** The state of the relational store. *)
Variable db : Type.

(** The collaborators of the service: the user and namespace models on the
    store ([GetUser] fills the struct it is handed), bcrypt, the token
    authentication, the unauthorized error, the model's admin role and the
    clock. *)
Variable GetUser : db → User → User * error.
Variable UpdateUser : db → User → db * error.
Variable InsertUser : db → User → db * User * error.
Variable DeleteUsersByIdList : db → list Z → db * error.
Variable UpdateUsersRole : db → list Z → string → db * error.
Variable UsersOrNamespacesDelete : db → list Z → db * error.
Variable DefaultAddUsers : db → Z → db * error.
Variable GenerateFromPassword : string → string * error.
Variable CompareHashAndPassword : string → string → error.
Variable GenerateToken : string → string → Z → string * error.
Variable VerifyToken : string → TokenClaims * error.
Variable ErrUnauthorized : string.
Variable model_AdminRole : string.
Variable now : Z.

Definition HashPassword (password : string) : string * error :=
  match GenerateFromPassword password with
  | (_, Some e) => ("", Some e)
  | (hash, None) => (hash, None)
  end.

Definition VerifyPassword (password hash : string) : bool :=
  bool_decide (CompareHashAndPassword hash password = None).

Definition Get (s : db) (name : string) : option User * error :=
  match GetUser s (userWithEmail name) with
  | (_, Some e) => (None, Some e)
  | (userGet, None) => (Some userGet, None)
  end.

Definition IsAdmin (s : db) (name : string) : bool :=
  match GetUser s (userWithEmail name) with
  | (_, Some _) => false
  | (userGet, None) =>
      if Disabled userGet then false
      else bool_decide (Role userGet = model_AdminRole)
  end.

Definition withLastLoginTime (u : User) (t : Z) : User :=
  {| ID := ID u; Email := Email u; Password := Password u; Role := Role u;
     Disabled := Disabled u; IsDeleted := IsDeleted u; LastLoginTime := t |}.

Definition withPassword (u : User) (hash : string) : User :=
  {| ID := ID u; Email := Email u; Password := hash; Role := Role u;
     Disabled := Disabled u; IsDeleted := IsDeleted u;
     LastLoginTime := LastLoginTime u |}.

Definition undeleted (u : User) : User :=
  {| ID := ID u; Email := Email u; Password := Password u; Role := Role u;
     Disabled := Disabled u; IsDeleted := false;
     LastLoginTime := LastLoginTime u |}.

(** [Login]: access token, refresh token, error, and the store afterwards. *)
Definition Login (s : db) (name password : string) : string * string * error * db :=
  match GetUser s (userWithEmail name) with
  | (_, Some e) => ("", "", Some e, s)
  | (userGet, None) =>
      if Disabled userGet || IsDeleted userGet then ("", "", Some ErrUnauthorized, s)
      else if negb (VerifyPassword password (Password userGet))
      then ("", "", Some ErrUnauthorized, s)
      else
        match UpdateUser s (withLastLoginTime userGet now) with
        | (s', Some e) => ("", "", Some e, s')
        | (s', None) =>
            match GenerateToken name GrantTypeAccess (5 * Minute) with
            | (_, Some e) => ("", "", Some e, s')
            | (tocken, None) =>
                match GenerateToken name GrantTypeRefresh (Hour * 24) with
                | (_, Some e) => ("", "", Some e, s')
                | (refreshToken, None) => (tocken, refreshToken, None, s')
                end
            end
        end
  end.

Definition Create (s : db) (name password role : string) : Z * error * db :=
  match HashPassword password with
  | (_, Some e) => (0, Some e, s)
  | (hash, None) =>
      let revive :=
        match Get s name with
        | (Some userGet, None) =>
            if IsDeleted userGet then Some userGet else None
        | _ => None
        end in
      match revive with
      | Some userGet =>
          let '(s', err) := UpdateUser s (withPassword (undeleted userGet) hash) in
          (ID userGet, err, s')
      | None =>
          let userCreate :=
            {| ID := 0; Email := name; Password := hash; Role := role;
               Disabled := false; IsDeleted := false; LastLoginTime := 0 |} in
          match InsertUser s userCreate with
          | (s', _, Some e) => (0, Some e, s')
          | (s', userCreate', None) =>
              let '(s'', err) := DefaultAddUsers s' (ID userCreate') in
              (ID userCreate', err, s'')
          end
      end
  end.

Definition InitAdmin (s : db) (name password : string) : error * db :=
  match Get s Admin with
  | (Some _, None) => (None, s)
  | _ => let '(_, err, s') := Create s Admin Admin AdminRole in (err, s')
  end.

Definition DeleteList (s : db) (name : string) (deleteIds : list Z) : error * db :=
  if negb (IsAdmin s name) then (Some "not admin", s)
  else
    match DeleteUsersByIdList s deleteIds with
    | (s', Some e) => (Some e, s')
    | (s', None) =>
        let '(s'', err) := UsersOrNamespacesDelete s' deleteIds in (err, s'')
    end.

Definition UpdatePassword (s : db) (name newPassword : string) : error * db :=
  match Get s name with
  | (Some userGet, None) =>
      if Disabled userGet then (Some ErrUnauthorized, s)
      else if negb (IsAdmin s name) && bool_decide (name ≠ Email userGet)
      then (Some ErrUnauthorized, s)
      else
        match HashPassword newPassword with
        | (_, Some e) => (Some e, s)
        | (hash, None) =>
            let '(s', err) := UpdateUser s (withPassword userGet hash) in (err, s')
        end
  | (_, err) => (err, s)
  end.

Definition UpdateListRole (s : db) (name : string) (ids : list Z) (role : string)
  : error * db :=
  if negb (IsAdmin s name) then (Some "not admin", s)
  else let '(s', err) := UpdateUsersRole s ids role in (err, s').

Definition UpdateListNamespace (s : db) (name : string) (ids : list Z) (role : string)
  : error * db :=
  if negb (IsAdmin s name) then (Some "not admin", s)
  else let '(s', err) := UpdateUsersRole s ids role in (err, s').

Definition CheckToken (token : string) : string * error :=
  if decide (token = "") then ("", Some ErrUnauthorized)
  else
    match VerifyToken token with
    | (_, Some _) => ("", Some ErrUnauthorized)
    | (tokenClaims, None) =>
        if decide (GrantType tokenClaims ≠ GrantTypeAccess)
        then ("", Some ErrUnauthorized)
        else (Username tokenClaims, None)
    end.
End Service.

End user.

(** * A concrete cluster

    An API server for running the analyzer's other methods: the pods and
    nodes of [sample.analyzer], listed whatever the labels asked for, two
    deployments, and a third node that has no internal address. *)
Module cluster.

Definition pods : list selector.Pod :=
  [ sample.pod "chaosmeta-0" "1.2.3.4" "node-1" sample.statuses;
    sample.pod "chaosmeta-1" "1.2.3.5" "node-1" [];
    sample.pod "chaosmeta-2" "1.2.3.6" "node-2"
      [ {| selector.cs_Name := "nginx";
           selector.cs_ContainerID := "docker://h4h4h" |} ] ].

Definition nodes : list selector.Node :=
  [ sample.node "node-1" "2.2.2.1";
    sample.node "node-2" "2.2.2.2";
    {| selector.node_Name := "node-3";
       selector.node_Status_Addresses :=
         [ {| selector.addr_Type := "Hostname"; selector.addr_Address := "node-3" |} ] |} ].

Definition deployments : list analyzer.Deployment :=
  [ {| analyzer.deploy_Name := "web"; analyzer.deploy_Namespace := "chaosmeta" |};
    {| analyzer.deploy_Name := "db"; analyzer.deploy_Namespace := "chaosmeta" |} ].

Definition inChaosmeta (opts : list selector.ListOption) : bool :=
  bool_decide (head opts = Some (selector.InNamespace "chaosmeta")).

Definition api : analyzer.ApiServer :=
  {| analyzer.lists :=
       {| selector.ApiServer_ListPods := λ opts,
            if inChaosmeta opts then (pods, None) else ([], None);
          selector.ApiServer_ListNodes := λ _, (nodes, None) |};
     analyzer.ApiServer_GetPod := λ ns name,
       match list_find (λ p, selector.pod_Name p = name) pods with
       | Some (_, p) =>
           if decide (ns = "chaosmeta") then (p, None)
           else (sample.pod "" "" "" [], Some ("pods " +:+ name +:+ " not found"))
       | None => (sample.pod "" "" "" [], Some ("pods " +:+ name +:+ " not found"))
       end;
     analyzer.ApiServer_ListDeployments := λ opts,
       if inChaosmeta opts then (deployments, None) else ([], None) |}.

End cluster.

(** * A concrete user store

    A store that is the list of its users, a hash that wraps the password,
    and tokens that spell out grant and user, for running the user service. *)
Module store.

Definition db := list user.User.

Definition GetUser (s : db) (u : user.User) : user.User * error :=
  match list_find (λ x, user.Email x = user.Email u) s with
  | Some (_, x) => (x, None)
  | None => (u, Some "no row found")
  end.

Definition UpdateUser (s : db) (u : user.User) : db * error :=
  match list_find (λ x, user.ID x = user.ID u) s with
  | Some (i, _) => (<[i := u]> s, None)
  | None => (s, Some "no row found")
  end.

Definition InsertUser (s : db) (u : user.User) : db * user.User * error :=
  let u' := {| user.ID := Z.of_nat (length s) + 1; user.Email := user.Email u;
               user.Password := user.Password u; user.Role := user.Role u;
               user.Disabled := user.Disabled u; user.IsDeleted := user.IsDeleted u;
               user.LastLoginTime := user.LastLoginTime u |} in
  (s ++ [u'], u', None).

Definition DeleteUsersByIdList (s : db) (ids : list Z) : db * error :=
  (filter (λ x, user.ID x ∉ ids) s, None).

Definition UpdateUsersRole (s : db) (ids : list Z) (role : string) : db * error :=
  ((λ x, if decide (user.ID x ∈ ids)
         then {| user.ID := user.ID x; user.Email := user.Email x;
                 user.Password := user.Password x; user.Role := role;
                 user.Disabled := user.Disabled x; user.IsDeleted := user.IsDeleted x;
                 user.LastLoginTime := user.LastLoginTime x |}
         else x) <$> s, None).

Definition UsersOrNamespacesDelete (s : db) (ids : list Z) : db * error := (s, None).
Definition DefaultAddUsers (s : db) (id : Z) : db * error := (s, None).

Definition GenerateFromPassword (password : string) : string * error :=
  ("h(" +:+ password +:+ ")", None).

Definition CompareHashAndPassword (hash password : string) : error :=
  if decide (hash = "h(" +:+ password +:+ ")") then None
  else Some "hashedPassword is not the hash of the given password".

Definition GenerateToken (name grantType : string) (d : Z) : string * error :=
  (grantType +:+ ":" +:+ name, None).

(** Splits [grant:name] at the first colon. *)
Fixpoint splitColon (token : string) : option (string * string) :=
  match token with
  | EmptyString => None
  | String c rest =>
      if Ascii.eqb c ":" then Some ("", rest)
      else match splitColon rest with
           | Some (grant, name) => Some (String c grant, name)
           | None => None
           end
  end.

Definition VerifyToken (token : string) : user.TokenClaims * error :=
  match splitColon token with
  | Some (grant, name) => ({| user.Username := name; user.GrantType := grant |}, None)
  | None => ({| user.Username := ""; user.GrantType := "" |}, Some "malformed token")
  end.

Definition ErrUnauthorized : string := "unauthorized".

Definition account (id : Z) (email password role : string) (disabled deleted : bool)
  : user.User :=
  {| user.ID := id; user.Email := email; user.Password := "h(" +:+ password +:+ ")";
     user.Role := role; user.Disabled := disabled; user.IsDeleted := deleted;
     user.LastLoginTime := 0 |}.

(** An admin, a normal user, a disabled admin and a deleted user. *)
Definition users : db :=
  [ account 1 "admin" "admin" "admin" false false;
    account 2 "ann" "s3cret" "normal" false false;
    account 3 "bob" "hunter2" "admin" true false;
    account 4 "eve" "old" "normal" false true ].

End store.

(** * Properties *)

(** ** Formatting and searching strings *)

Example fmt_d_prints_decimal :
  fmt_d 4242 = "4242" ∧ fmt_d 0 = "0" ∧ fmt_d (-1) = "-1".
Proof. repeat split; reflexivity. Qed.

Example Index_examples :
  strings.Index "[success] inject success" "[success]" = 0 ∧
  strings.Index "cpu burn error: no such fault" "error" = 9 ∧
  strings.Index "usage: burn [flags]" "error" = -1.
Proof. repeat split; reflexivity. Qed.

Lemma prefix_iff (p s : string) :
  String.prefix p s = true ↔ ∃ post : string, s = p +:+ post.
Proof.
  revert s. induction p as [|a p IH]; intros s; simpl.
  - destruct s; split; eauto.
  - destruct s as [|b s]; simpl.
    + split; [discriminate | intros [post H]; discriminate].
    + destruct (Ascii.ascii_dec a b) as [->|Hab].
      * rewrite IH. split; intros [post H]; exists post.
        -- by rewrite H.
        -- by injection H.
      * split; [discriminate | intros [post H]].
        injection H as -> _. by destruct Hab.
Qed.

Lemma index0_is_Some (sub s : string) :
  is_Some (String.index 0 sub s) ↔ strings.Contains s sub.
Proof.
  unfold strings.Contains.
  induction s as [|b s IH].
  - simpl. destruct sub as [|a sub].
    + split; [intros _; exists "", ""; reflexivity | eauto].
    + split; [intros [x Hx]; discriminate |].
      intros (pre & post & H). destruct pre; discriminate.
  - cbn [String.index].
    destruct (String.prefix sub (String b s)) eqn:Hp.
    + split; [intros _ | eauto].
      apply prefix_iff in Hp as [post Hpost]. exists "", post. exact Hpost.
    + destruct (String.index 0 sub s) as [n|] eqn:Hi.
      * split; [intros _ | eauto].
        destruct (proj1 IH) as (pre & post & H); [eauto|].
        exists (String b pre), post. simpl. by rewrite H.
      * split; [intros [x Hx]; discriminate |].
        intros (pre & post & H). destruct pre as [|b' pre].
        -- simpl in H. assert (String.prefix sub (String b s) = true) as Hp'
             by (apply prefix_iff; eauto). congruence.
        -- simpl in H. injection H as _ H.
           assert (is_Some (@None nat)) as [x Hx] by (apply IH; eauto).
           discriminate.
Qed.

Lemma Index_nonneg (s sub : string) :
  strings.Index s sub >= 0 ↔ strings.Contains s sub.
Proof.
  rewrite <- index0_is_Some. unfold strings.Index.
  destruct (String.index 0 sub s) as [n|].
  - split; [eauto | lia].
  - split; [lia | intros [x Hx]; discriminate].
Qed.

(** ** The polling loop of waitProExec *)

Lemma poll_step (fuel tick : nat) (buf : cmdexec.buffers) :
  cmdexec.poll (S fuel) tick buf =
    if bool_decide (buf tick = ("", ""))
    then cmdexec.poll fuel (S tick) buf
    else Some (tick, (buf tick).1 +:+ (buf tick).2).
Proof.
  simpl. destruct (buf tick) as [so se]. simpl.
  repeat case_bool_decide; simpl; try reflexivity; simplify_eq; tauto.
Qed.

Lemma poll_quiet (fuel tick : nat) (buf : cmdexec.buffers) :
  (∀ k, (tick ≤ k < tick + fuel)%nat → buf k = ("", "")) →
  cmdexec.poll fuel tick buf = None.
Proof.
  revert tick. induction fuel as [|fuel IH]; intros tick Hq; [reflexivity|].
  rewrite poll_step, bool_decide_eq_true_2 by (apply Hq; lia).
  apply IH. intros k Hk. apply Hq. lia.
Qed.

Lemma poll_first (fuel tick n : nat) (buf : cmdexec.buffers) :
  (tick ≤ n < tick + fuel)%nat →
  (∀ k, (tick ≤ k < n)%nat → buf k = ("", "")) →
  buf n ≠ ("", "") →
  cmdexec.poll fuel tick buf = Some (n, (buf n).1 +:+ (buf n).2).
Proof.
  revert tick. induction fuel as [|fuel IH]; intros tick Hn Hq Hne; [lia|].
  rewrite poll_step. destruct (decide (tick = n)) as [->|Hlt].
  - by rewrite bool_decide_eq_false_2.
  - rewrite bool_decide_eq_true_2 by (apply Hq; lia).
    apply IH; [lia | intros k Hk; apply Hq; lia | done].
Qed.

Lemma poll_Some (fuel tick n : nat) (msg : string) (buf : cmdexec.buffers) :
  cmdexec.poll fuel tick buf = Some (n, msg) →
  (tick ≤ n < tick + fuel)%nat ∧
  (∀ k, (tick ≤ k < n)%nat → buf k = ("", "")) ∧
  buf n ≠ ("", "") ∧ msg = (buf n).1 +:+ (buf n).2.
Proof.
  revert tick. induction fuel as [|fuel IH]; intros tick H; [discriminate|].
  rewrite poll_step in H. case_bool_decide as Hb.
  - apply IH in H as (Hn & Hq & Hne & Hmsg). repeat split; try done; try lia.
    intros k Hk. destruct (decide (k = tick)) as [->|]; [done | apply Hq; lia].
  - simplify_eq. repeat split; try done; lia.
Qed.

(** ** Sentinel classification *)

(** C1.  Whatever combined stdout+stderr text [waitProExec] leaves its loop
    with is classified in this order: a text containing ["error"] makes the
    call fail with the injection error carrying the text; otherwise a text
    containing ["[success]"] makes it succeed; otherwise it fails with the
    unexpected-output error carrying the text. *)
Theorem waitProExec_classifies (fuel tick : nat) (buf : cmdexec.buffers) (msg : string) :
  cmdexec.poll fuel 0 buf = Some (tick, msg) →
  msg = (buf tick).1 +:+ (buf tick).2 ∧
  (strings.Contains msg "error" →
     cmdexec.waitProExec fuel buf = cmdexec.Returned (Some ("inject error: " +:+ msg))) ∧
  (¬ strings.Contains msg "error" → strings.Contains msg "[success]" →
     cmdexec.waitProExec fuel buf = cmdexec.Returned None) ∧
  (¬ strings.Contains msg "error" → ¬ strings.Contains msg "[success]" →
     cmdexec.waitProExec fuel buf
       = cmdexec.Returned (Some ("unexpected output: " +:+ msg))).
Proof.
  intros Hpoll. split; [by apply poll_Some in Hpoll as (_ & _ & _ & ->)|].
  unfold cmdexec.waitProExec, cmdexec.classify. rewrite Hpoll.
  rewrite <- !Index_nonneg.
  repeat split; intros; repeat case_bool_decide; done.
Qed.

Lemma waitProExec_classifies_witness :
  cmdexec.poll 3 0 sample.slowSuccess = Some (2%nat, "[success] inject success") ∧
  cmdexec.waitProExec 3 sample.slowSuccess = cmdexec.Returned None.
Proof.
  split; [reflexivity|].
  apply (waitProExec_classifies 3 2 sample.slowSuccess _ eq_refl).
  - rewrite <- Index_nonneg. vm_compute. intros H. by apply H.
  - rewrite <- Index_nonneg. vm_compute. discriminate.
Defined.

(** ** The wait has no deadline *)

(** C8.  [waitProExec] looks at the buffers once per expiry of the 200 ms
    timer.  While both buffers are empty it does not return, however many
    expiries it is given; it returns exactly at the first expiry at which a
    buffer is non-empty, after [200 * (n + 1)] ms on the timer, and a call
    that has returned has seen output.  Nothing but the two buffers is an
    input of the wait: there is no deadline and no context to cancel. *)
Theorem waitProExec_waits_for_output (buf : cmdexec.buffers) :
  (∀ fuel : nat,
      (∀ k, (k < fuel)%nat → buf k = ("", "")) →
      cmdexec.waitProExec fuel buf = cmdexec.StillWaiting) ∧
  (∀ fuel n : nat,
      (∀ k, (k < n)%nat → buf k = ("", "")) → buf n ≠ ("", "") → (n < fuel)%nat →
      cmdexec.poll fuel 0 buf = Some (n, (buf n).1 +:+ (buf n).2) ∧
      cmdexec.waitProExec fuel buf
        = cmdexec.Returned (cmdexec.classify ((buf n).1 +:+ (buf n).2)) ∧
      cmdexec.waited n = 200 * (Z.of_nat n + 1)) ∧
  (∀ (fuel : nat) (r : error),
      cmdexec.waitProExec fuel buf = cmdexec.Returned r →
      ∃ n : nat, (n < fuel)%nat ∧ buf n ≠ ("", "") ∧
                 ∀ k, (k < n)%nat → buf k = ("", "")).
Proof.
  split; [|split].
  - intros fuel Hq. unfold cmdexec.waitProExec.
    rewrite poll_quiet; [done|]. intros k Hk. apply Hq. lia.
  - intros fuel n Hq Hne Hn.
    assert (cmdexec.poll fuel 0 buf = Some (n, (buf n).1 +:+ (buf n).2)) as Hp.
    { apply poll_first; [lia | intros k Hk; apply Hq; lia | done]. }
    split; [done|]. unfold cmdexec.waitProExec, cmdexec.waited,
      cmdexec.InjectCheckInterval. rewrite Hp. split; [done | lia].
  - intros fuel r. unfold cmdexec.waitProExec.
    destruct (cmdexec.poll fuel 0 buf) as [[n msg]|] eqn:Hp; [|discriminate].
    intros _. apply poll_Some in Hp as (Hn & Hq & Hne & _).
    exists n. split; [lia|]. split; [done|]. intros k Hk. apply Hq. lia.
Qed.

Lemma waitProExec_waits_for_output_witness :
  cmdexec.waitProExec 1000 sample.silent = cmdexec.StillWaiting ∧
  cmdexec.waitProExec 2 sample.slowSuccess = cmdexec.StillWaiting ∧
  cmdexec.waitProExec 3 sample.slowSuccess = cmdexec.Returned None ∧
  cmdexec.waited 2 = 600.
Proof.
  split; [|split].
  - apply (proj1 (waitProExec_waits_for_output sample.silent) 1000%nat).
    intros k _. reflexivity.
  - apply (proj1 (waitProExec_waits_for_output sample.slowSuccess) 2%nat).
    intros k Hk. unfold sample.slowSuccess. by rewrite decide_True.
  - destruct (proj1 (proj2 (waitProExec_waits_for_output sample.slowSuccess))
                3%nat 2%nat) as (_ & Hret & Hms).
    + intros k Hk. unfold sample.slowSuccess. by rewrite decide_True.
    + vm_compute. discriminate.
    + lia.
    + split; [exact Hret | exact Hms].
Defined.

(** ** StartBashCmdAndWaitPid *)

Section StartBashCmdAndWaitPid_facts.
Variable os : list string → cmdexec.child.
Variable NoPid : Z.

(** C5.  A command that could not be started yields [NoPid] and leaves no
    process behind.  A command that was started yields the child's pid
    whatever [waitProExec] returned: with a nil error when the wait
    succeeded, with a wrapped error when it failed.  So a pid equal to
    [NoPid] is only returned for a failed start, as long as [NoPid] is
    not the pid of a process. *)
Theorem StartBashCmdAndWaitPid_returns_pid (fuel : nat) (cmd : string)
    (w : cmdexec.spawned) :
  let c := os ["/bin/bash"; "-c"; cmd] in
  (∀ e, cmdexec.start_err c = Some e →
     cmdexec.StartBashCmdAndWaitPid os NoPid fuel cmd w
       = (cmdexec.Returned (NoPid, Some ("cmd start error: " +:+ e)), w)) ∧
  (cmdexec.start_err c = None →
     (cmdexec.waitProExec fuel (cmdexec.output c) = cmdexec.Returned None →
      cmdexec.StartBashCmdAndWaitPid os NoPid fuel cmd w
        = (cmdexec.Returned (cmdexec.Pid c, None),
           w ++ [(["/bin/bash"; "-c"; cmd], cmdexec.Pid c)])) ∧
     (∀ e, cmdexec.waitProExec fuel (cmdexec.output c) = cmdexec.Returned (Some e) →
      cmdexec.StartBashCmdAndWaitPid os NoPid fuel cmd w
        = (cmdexec.Returned (cmdexec.Pid c, Some ("wait process exec error: " +:+ e)),
           w ++ [(["/bin/bash"; "-c"; cmd], cmdexec.Pid c)]))) ∧
  (∀ pid err w',
     cmdexec.StartBashCmdAndWaitPid os NoPid fuel cmd w
       = (cmdexec.Returned (pid, err), w') →
     (cmdexec.start_err c = None → pid = cmdexec.Pid c) ∧
     (cmdexec.Pid c ≠ NoPid → pid = NoPid → cmdexec.start_err c ≠ None)).
Proof.
  intros c. unfold cmdexec.StartBashCmdAndWaitPid. fold c.
  split; [|split].
  - by intros e ->.
  - intros ->. split; [by intros -> | by intros e ->].
  - intros pid err w'. destruct (cmdexec.start_err c) as [e|].
    + intros [= <- <- <-]. split; done.
    + destruct (cmdexec.waitProExec fuel (cmdexec.output c)) as [[e|]| |];
        intros [=]; subst; split; congruence.
Qed.
End StartBashCmdAndWaitPid_facts.

Lemma StartBashCmdAndWaitPid_returns_pid_witness :
  cmdexec.StartBashCmdAndWaitPid sample.os sample.NoPid 5 "" []
    = (cmdexec.Returned (-1, Some "cmd start error: exec: no command"), []) ∧
  cmdexec.StartBashCmdAndWaitPid sample.os sample.NoPid 5 "cpu burn" []
    = (cmdexec.Returned (5151, None), [(["/bin/bash"; "-c"; "cpu burn"], 5151)]) ∧
  cmdexec.StartBashCmdAndWaitPid sample.os sample.NoPid 5 "bad" []
    = (cmdexec.Returned
         (5152, Some "wait process exec error: inject error: error: fault not supported"),
       [(["/bin/bash"; "-c"; "bad"], 5152)]) ∧
  cmdexec.StartBashCmdAndWaitPid sample.os sample.NoPid 5 "help" []
    = (cmdexec.Returned
         (5153, Some "wait process exec error: unexpected output: usage: burn [flags]"),
       [(["/bin/bash"; "-c"; "help"], 5153)]).
Proof.
  split; [|split; [|split]].
  - apply (proj1 (StartBashCmdAndWaitPid_returns_pid sample.os sample.NoPid 5 "" [])).
    reflexivity.
  - apply (proj1 (proj2
      (StartBashCmdAndWaitPid_returns_pid sample.os sample.NoPid 5 "cpu burn" []))
      eq_refl). reflexivity.
  - apply (proj2 (proj1 (proj2
      (StartBashCmdAndWaitPid_returns_pid sample.os sample.NoPid 5 "bad" []))
      eq_refl) "inject error: error: fault not supported"). reflexivity.
  - apply (proj2 (proj1 (proj2
      (StartBashCmdAndWaitPid_returns_pid sample.os sample.NoPid 5 "help" []))
      eq_refl) "unexpected output: usage: burn [flags]"). reflexivity.
Defined.

(** ** The runtime client factory *)




(** ** ExecContainer *)

Section ExecContainer_facts.
Variable os : list string → cmdexec.child.
Variable NoPid : Z.
Variable GetToolPath : string → string.
Variable docker_GetClient : option crclient.Client * error.

Local Abbreviation ExecContainer :=
  (cmdexec.ExecContainer os NoPid GetToolPath docker_GetClient).

(** C6.  [ExecContainer] asks the factory for the runtime's client and the
    client for the container's init pid.  When either fails it returns
    [NoPid] with the failure's text wrapped in its own, and the list of
    spawned processes is unchanged.  Otherwise it is
    [StartBashCmdAndWaitPid] on the line
    [<tool> <pid> <namespace-list> <fault-cmd>], and a started child is
    bash running exactly that line. *)
Theorem ExecContainer_resolves_then_enters (fuel : nat)
    (cmd cr containerId namespaces : string) (w : cmdexec.spawned) :
  (∀ cl e, crclient.GetClient docker_GetClient cr = (cl, Some e) →
     ExecContainer fuel cmd cr containerId namespaces w
       = (cmdexec.Returned
            (NoPid, Some ("get cr[" +:+ cr +:+ "] client error: " +:+ e)), w)) ∧
  (∀ client p e,
     crclient.GetClient docker_GetClient cr = (Some client, None) →
     crclient.GetPidById client containerId = (p, Some e) →
     ExecContainer fuel cmd cr containerId namespaces w
       = (cmdexec.Returned
            (NoPid, Some ("get pid of container[" +:+ containerId
                          +:+ "]'s init process error: " +:+ e)), w)) ∧
  (∀ client targetPid,
     crclient.GetClient docker_GetClient cr = (Some client, None) →
     crclient.GetPidById client containerId = (targetPid, None) →
     let line := GetToolPath "chaosmeta_execns" +:+ " " +:+ fmt_d targetPid
                   +:+ " " +:+ namespaces +:+ " " +:+ cmd in
     ExecContainer fuel cmd cr containerId namespaces w
       = cmdexec.StartBashCmdAndWaitPid os NoPid fuel line w ∧
     (cmdexec.start_err (os ["/bin/bash"; "-c"; line]) = None →
      (ExecContainer fuel cmd cr containerId namespaces w).2
        = w ++ [(["/bin/bash"; "-c"; line],
                 cmdexec.Pid (os ["/bin/bash"; "-c"; line]))])).
Proof.
  unfold cmdexec.ExecContainer. split; [|split].
  - intros cl e ->. by destruct cl.
  - by intros client p e -> ->.
  - intros client targetPid H1 H2. rewrite H1, H2.
    unfold cmdexec.execnsCmd, cmdexec.execnsKey. simpl.
    split; [done|]. intros Hs.
    unfold cmdexec.StartBashCmdAndWaitPid. rewrite Hs.
    by destruct (cmdexec.waitProExec _ _) as [[e|]| |].
Qed.
End ExecContainer_facts.

Lemma ExecContainer_resolves_then_enters_witness :
  let docker := (Some sample.dockerClient, None) in
  cmdexec.ExecContainer sample.os sample.NoPid sample.GetToolPath docker
      5 "cpu burn -p 90" "containerd" "g3g3g" "pid,net" []
    = (cmdexec.Returned
         (-1, Some "get cr[containerd] client error: to be supported"), []) ∧
  cmdexec.ExecContainer sample.os sample.NoPid sample.GetToolPath docker
      5 "cpu burn -p 90" "docker" "zzz" "pid,net" []
    = (cmdexec.Returned
         (-1, Some "get pid of container[zzz]'s init process error: No such container: zzz"),
       []) ∧
  (cmdexec.ExecContainer sample.os sample.NoPid sample.GetToolPath docker
      5 "cpu burn -p 90" "docker" "g3g3g" "pid,net" []).2
    = [(["/bin/bash"; "-c";
         "/opt/chaosmeta/tools/chaosmeta_execns 4242 pid,net cpu burn -p 90"], 5151)].
Proof.
  intros docker. split; [|split].
  - apply (proj1 (ExecContainer_resolves_then_enters sample.os sample.NoPid
             sample.GetToolPath docker 5 "cpu burn -p 90" "containerd" "g3g3g"
             "pid,net" []) None). reflexivity.
  - apply (proj1 (proj2 (ExecContainer_resolves_then_enters sample.os sample.NoPid
             sample.GetToolPath docker 5 "cpu burn -p 90" "docker" "zzz"
             "pid,net" [])) sample.dockerClient 0); reflexivity.
  - apply (proj2 (proj2 (proj2 (ExecContainer_resolves_then_enters sample.os
             sample.NoPid sample.GetToolPath docker 5 "cpu burn -p 90" "docker"
             "g3g3g" "pid,net" [])) sample.dockerClient 4242 eq_refl eq_refl)).
    reflexivity.
Defined.

(** ** Resolving a container on a pod *)

Section GetTargetContainer_facts.
Variable FirstContainer : string.
Variable ParseContainerID : string → string * string * error.

Local Abbreviation GetTargetContainer :=
  (selector.GetTargetContainer FirstContainer ParseContainerID).
Local Abbreviation parseTarget := (selector.parseTarget ParseContainerID).

Lemma findContainer_first (containerName : string)
    (pre post : list selector.ContainerStatus) (unitC : selector.ContainerStatus) :
  Forall (λ c, selector.cs_Name c ≠ containerName) pre →
  selector.cs_Name unitC = containerName →
  selector.findContainer containerName (pre ++ unitC :: post) = Some unitC.
Proof.
  intros Hpre Hname. induction Hpre as [|c pre Hc _ IH]; simpl.
  - by rewrite decide_True.
  - by rewrite decide_False.
Qed.

Lemma findContainer_none (containerName : string)
    (status : list selector.ContainerStatus) :
  Forall (λ c, selector.cs_Name c ≠ containerName) status →
  selector.findContainer containerName status = None.
Proof.
  induction 1 as [|c status Hc _ IH]; simpl; [done|]. by rewrite decide_False.
Qed.

Lemma findContainer_Some (containerName : string)
    (status : list selector.ContainerStatus) (unitC : selector.ContainerStatus) :
  selector.findContainer containerName status = Some unitC →
  unitC ∈ status ∧ selector.cs_Name unitC = containerName.
Proof.
  induction status as [|c status IH]; simpl; [done|].
  case_decide as Hc.
  - intros [= ->]. split; [left | done].
  - intros H. destruct (IH H) as [Hin Hn]. split; [by right | done].
Qed.

Lemma parseTarget_ok (c : selector.ContainerStatus) (r id name : string) :
  parseTarget c = (r, id, name, None) ↔
  ParseContainerID (selector.cs_ContainerID c) = (r, id, None)
  ∧ name = selector.cs_Name c.
Proof.
  unfold selector.parseTarget.
  destruct (ParseContainerID (selector.cs_ContainerID c)) as [[r' id'] [e|]].
  - split; [discriminate | intros [[=] _]].
  - split; [intros [= -> -> <-]; done | intros [[= -> ->] ->]; done].
Qed.


Lemma GetTargetContainer_absent (containerName : string)
    (status : list selector.ContainerStatus) :
  status ≠ [] → containerName ≠ FirstContainer →
  Forall (λ c, selector.cs_Name c ≠ containerName) status →
  GetTargetContainer containerName status
    = ("", "", "", Some ("not found container " +:+ containerName)).
Proof.
  intros Hst Hne Hall. unfold selector.GetTargetContainer.
  destruct status as [|c status]; [done|].
  rewrite decide_False by done. by rewrite findContainer_none.
Qed.

(** C7.  On an empty status list [GetTargetContainer] fails with the
    no-container error.  On a non-empty one the first-container marker
    selects the first status, any other name selects the first status
    carrying exactly that name, and a name carried by no status fails with
    the not-found error.  A call that succeeds returns the runtime and id
    parsed from the selected status's container id, with that status's
    name. *)
Theorem GetTargetContainer_selects (containerName : string)
    (status : list selector.ContainerStatus) :
  (status = [] →
     GetTargetContainer containerName status = ("", "", "", Some "no container in pod")) ∧
  (∀ first rest, status = first :: rest → containerName = FirstContainer →
     GetTargetContainer containerName status = parseTarget first) ∧
  (∀ pre unitC post, status = pre ++ unitC :: post →
     containerName ≠ FirstContainer →
     Forall (λ c, selector.cs_Name c ≠ containerName) pre →
     selector.cs_Name unitC = containerName →
     GetTargetContainer containerName status = parseTarget unitC) ∧
  (status ≠ [] → containerName ≠ FirstContainer →
     Forall (λ c, selector.cs_Name c ≠ containerName) status →
     GetTargetContainer containerName status
       = ("", "", "", Some ("not found container " +:+ containerName))) ∧
  (∀ c r id, ParseContainerID (selector.cs_ContainerID c) = (r, id, None) →
     parseTarget c = (r, id, selector.cs_Name c, None)) ∧
  (∀ r id name, GetTargetContainer containerName status = (r, id, name, None) →
     ∃ unitC, unitC ∈ status ∧ name = selector.cs_Name unitC ∧
              ParseContainerID (selector.cs_ContainerID unitC) = (r, id, None) ∧
              (containerName ≠ FirstContainer → name = containerName)).
Proof.
  unfold selector.GetTargetContainer. repeat split.
  - by intros ->.
  - intros first rest -> ->. by rewrite decide_True.
  - intros pre unitC post -> Hne Hpre Hname.
    pose proof (findContainer_first containerName pre post unitC Hpre Hname) as Hf.
    destruct pre as [|p pre]; simpl in *; rewrite decide_False by done;
      by rewrite Hf.
  - apply GetTargetContainer_absent.
  - intros c r id H. by apply parseTarget_ok.
  - intros r id name. destruct status as [|first rest]; [discriminate|].
    case_decide as Hfc.
    + intros (Hp & ->)%parseTarget_ok. exists first.
      split; [left | done].
    + destruct (selector.findContainer containerName (first :: rest))
        as [unitC|] eqn:Hf; [|discriminate].
      intros (Hp & ->)%parseTarget_ok.
      apply findContainer_Some in Hf as [Hin Hn]. by exists unitC.
Qed.

End GetTargetContainer_facts.

Lemma GetTargetContainer_selects_witness :
  selector.GetTargetContainer sample.FirstContainer sample.ParseContainerID
      "nginx" []
    = ("", "", "", Some "no container in pod") ∧
  selector.GetTargetContainer sample.FirstContainer sample.ParseContainerID
      "firstcontainer" sample.statuses
    = ("docker", "g3g3g", "nginx", None) ∧
  selector.GetTargetContainer sample.FirstContainer sample.ParseContainerID
      "sidecar" sample.statuses
    = ("containerd", "a1b2", "sidecar", None) ∧
  selector.GetTargetContainer sample.FirstContainer sample.ParseContainerID
      "redis" sample.statuses
    = ("", "", "", Some "not found container redis").
Proof.
  split; [|split; [|split]].
  - apply (proj1 (GetTargetContainer_selects sample.FirstContainer
                    sample.ParseContainerID "nginx" [])). reflexivity.
  - destruct (GetTargetContainer_selects sample.FirstContainer
                sample.ParseContainerID "firstcontainer" sample.statuses)
      as (_ & Hfirst & _).
    rewrite (Hfirst _ _ eq_refl eq_refl). reflexivity.
  - destruct (GetTargetContainer_selects sample.FirstContainer
                sample.ParseContainerID "sidecar" sample.statuses)
      as (_ & _ & Hname & _).
    rewrite (Hname [_] _ [] eq_refl).
    + reflexivity.
    + discriminate.
    + repeat constructor. discriminate.
    + reflexivity.
  - destruct (GetTargetContainer_selects sample.FirstContainer
                sample.ParseContainerID "redis" sample.statuses)
      as (_ & _ & _ & Hnone & _).
    apply Hnone; [discriminate | discriminate |].
    repeat constructor; discriminate.
Defined.

(** ** Resolving by name list *)

Lemma map_get_foldl (names : list string) (m : gmap string bool) (k : string) :
  selector.map_get (foldl (λ m u, <[u := true]> m) m names) k = true
  ↔ k ∈ names ∨ selector.map_get m k = true.
Proof.
  revert m. induction names as [|u names IH]; intros m; simpl.
  - rewrite elem_of_nil. tauto.
  - rewrite IH, elem_of_cons. unfold selector.map_get.
    destruct (decide (u = k)) as [->|Hne].
    + rewrite lookup_insert_eq. simpl. tauto.
    + rewrite lookup_insert_ne by done. split; [tauto|].
      intros [[?|?]|?]; [congruence | tauto | tauto].
Qed.

Lemma map_get_nameMap (names : list string) (k : string) :
  selector.map_get (selector.nameMap names) k = true ↔ k ∈ names.
Proof.
  unfold selector.nameMap. rewrite map_get_foldl.
  unfold selector.map_get. rewrite lookup_empty. simpl. split; [|tauto].
  intros [?|?]; [done | discriminate].
Qed.

Lemma nameMap_ext (names names' : list string) :
  (∀ k, k ∈ names ↔ k ∈ names') →
  ∀ k, selector.map_get (selector.nameMap names) k
       = selector.map_get (selector.nameMap names') k.
Proof.
  intros Hset k.
  destruct (selector.map_get (selector.nameMap names) k) eqn:H1,
           (selector.map_get (selector.nameMap names') k) eqn:H2; try done.
  - apply map_get_nameMap, Hset, map_get_nameMap in H1. congruence.
  - apply map_get_nameMap, Hset, map_get_nameMap in H2. congruence.
Qed.

Lemma filter_nameMap {A : Type} (name : A → string) (names : list string) (l : list A) :
  filter (λ x, selector.map_get (selector.nameMap names) (name x) = true) l
  = filter (λ x, name x ∈ names) l.
Proof. apply list_filter_iff. intros x. apply map_get_nameMap. Qed.

Section ByName_facts.
Variable FirstContainer : string.
Variable ParseContainerID : string → string * string * error.

Local Abbreviation GetTargetContainer :=
  (selector.GetTargetContainer FirstContainer ParseContainerID).
Local Abbreviation podNameLoop :=
  (selector.podNameLoop FirstContainer ParseContainerID).
Local Abbreviation nodeNameLoop := (selector.nodeNameLoop ParseContainerID).
Local Abbreviation GetPodListByPodName :=
  (selector.GetPodListByPodName FirstContainer ParseContainerID).
Local Abbreviation GetNodeListByNodeName :=
  (selector.GetNodeListByNodeName ParseContainerID).

(** [o] is what the loop appends for the listed pod [p]. *)
Local Abbreviation resolves containerName p o :=
  (∃ r id name,
      GetTargetContainer containerName (selector.pod_Status_ContainerStatuses p)
        = (r, id, name, None)
      ∧ o = selector.withContainer (selector.podInfo p) r id name).

Local Abbreviation listed m :=
  (λ p, selector.map_get m (selector.pod_Name p) = true).

Lemma podNameLoop_ext (m m' : gmap string bool) (containerName : string)
    (items : list selector.Pod) (result : list selector.PodObject) :
  (∀ k, selector.map_get m k = selector.map_get m' k) →
  podNameLoop m containerName items result = podNameLoop m' containerName items result.
Proof.
  intros Hm. revert result. induction items as [|p items IH]; intros result;
    simpl; [done|].
  rewrite Hm, !IH.
  destruct (GetTargetContainer _ _) as [[[r id] name] [e|]]; [done|].
  by rewrite IH.
Qed.

Lemma podNameLoop_plain (m : gmap string bool) (items : list selector.Pod)
    (result : list selector.PodObject) :
  podNameLoop m "" items result
  = (result ++ (selector.podInfo <$> filter (listed m) items), None).
Proof.
  revert result. induction items as [|p items IH]; intros result; simpl.
  - by rewrite app_nil_r.
  - rewrite filter_cons. destruct (selector.map_get m _) eqn:Hg; simpl.
    + rewrite IH, <- app_assoc. done.
    + apply IH.
Qed.

Lemma podNameLoop_ok (m : gmap string bool) (containerName : string)
    (items : list selector.Pod) (result objs : list selector.PodObject) :
  containerName ≠ "" →
  podNameLoop m containerName items result = (objs, None)
  ↔ ∃ new, objs = result ++ new
           ∧ Forall2 (λ p o, resolves containerName p o) (filter (listed m) items) new.
Proof.
  intros Hcn. revert result. induction items as [|p items IH]; intros result; simpl.
  - split.
    + intros [= <-]. exists []. by rewrite app_nil_r.
    + intros (new & -> & ->%Forall2_nil_inv_l). by rewrite app_nil_r.
  - rewrite filter_cons. destruct (selector.map_get m _) eqn:Hg; simpl.
    + rewrite decide_True by done.
      destruct (GetTargetContainer _ _) as [[[r id] name] [e|]] eqn:Hgt.
      * split; [discriminate|].
        intros (new & _ & Hall). apply Forall2_cons_inv_l in Hall
          as (o & new' & (r' & id' & name' & Hgt' & _) & _ & _). congruence.
      * rewrite IH. split.
        -- intros (new & -> & Hall). eexists (_ :: new).
           rewrite <- app_assoc. split; [done|]. constructor; [|done].
           by exists r, id, name.
        -- intros (new & -> & Hall). apply Forall2_cons_inv_l in Hall
             as (o & new' & (r' & id' & name' & Hgt' & ->) & Hall & ->).
           rewrite Hgt in Hgt'. injection Hgt' as <- <- <-.
           exists new'. by rewrite <- app_assoc.
    + apply IH.
Qed.

Lemma podNameLoop_err (m : gmap string bool) (containerName : string)
    (items good rest : list selector.Pod) (bad : selector.Pod)
    (result : list selector.PodObject) (r id name e : string) :
  containerName ≠ "" →
  filter (listed m) items = good ++ bad :: rest →
  Forall (λ p, ∃ o, resolves containerName p o) good →
  GetTargetContainer containerName (selector.pod_Status_ContainerStatuses bad)
    = (r, id, name, Some e) →
  podNameLoop m containerName items result
  = ([], Some ("get target container[" +:+ containerName +:+ "] in pod["
               +:+ selector.pod_Name bad +:+ "] error: " +:+ e)).
Proof.
  intros Hcn Hf Hgood Hbad. revert good result Hf Hgood.
  induction items as [|p items IH]; intros good result Hf Hgood.
  - by destruct good.
  - simpl. rewrite filter_cons in Hf.
    destruct (selector.map_get m (selector.pod_Name p)) eqn:Hg; simpl.
    + rewrite decide_True in Hf by done. rewrite decide_True by done.
      destruct good as [|g good]; simpl in Hf; injection Hf as -> Hf.
      * by rewrite Hbad.
      * apply Forall_cons in Hgood as [(o & r' & id' & name' & Hgt & _) Hgood].
        rewrite Hgt. by eapply IH.
    + rewrite decide_False in Hf by done. by eapply IH.
Qed.

Lemma podNameLoop_names (m : gmap string bool) (containerName : string)
    (items : list selector.Pod) (result objs : list selector.PodObject) :
  podNameLoop m containerName items result = (objs, None) →
  selector.PodName <$> objs
  = (selector.PodName <$> result)
      ++ filter (λ k, selector.map_get m k = true) (selector.pod_Name <$> items).
Proof.
  revert result. induction items as [|p items IH]; intros result; simpl.
  - intros [= <-]. by rewrite app_nil_r.
  - rewrite filter_cons.
    destruct (selector.map_get m (selector.pod_Name p)) eqn:Hg; simpl; [|apply IH].
    case_decide.
    + destruct (GetTargetContainer _ _) as [[[r id] name] [e|]]; [discriminate|].
      intros ->%IH. rewrite fmap_app, <- app_assoc. done.
    + intros ->%IH. rewrite fmap_app, <- app_assoc. done.
Qed.

Lemma tmpNode_name (unitNode : selector.Node) :
  selector.no_NodeName (selector.tmpNode unitNode) = selector.node_Name unitNode.
Proof.
  unfold selector.tmpNode.
  generalize (selector.node_Status_Addresses unitNode) as addrs.
  intros addrs.
  cut (∀ n0, selector.no_NodeName (foldl selector.setAddress n0 addrs)
             = selector.no_NodeName n0); [intros H; by rewrite H|].
  induction addrs as [|ad addrs IH]; intros n0; simpl; [done|].
  rewrite IH. unfold selector.setAddress. by repeat case_decide.
Qed.

Lemma nodeNameLoop_names (m : gmap string bool) (containerName : string)
    (items : list selector.Node) (result objs : list selector.NodeObject) :
  nodeNameLoop m containerName items result = (objs, None) →
  selector.no_NodeName <$> objs
  = (selector.no_NodeName <$> result)
      ++ filter (λ k, selector.map_get m k = true) (selector.node_Name <$> items).
Proof.
  revert result. induction items as [|n items IH]; intros result; simpl.
  - intros [= <-]. by rewrite app_nil_r.
  - rewrite filter_cons.
    destruct (selector.map_get m (selector.node_Name n)) eqn:Hg; simpl; [|apply IH].
    case_decide.
    + destruct (ParseContainerID containerName) as [[r id] [e|]]; [discriminate|].
      intros ->%IH. rewrite fmap_app, <- app_assoc. simpl.
      by rewrite tmpNode_name.
    + intros ->%IH. rewrite fmap_app, <- app_assoc. simpl.
      by rewrite tmpNode_name.
Qed.

Lemma nodeNameLoop_ext (m m' : gmap string bool) (containerName : string)
    (items : list selector.Node) (result : list selector.NodeObject) :
  (∀ k, selector.map_get m k = selector.map_get m' k) →
  nodeNameLoop m containerName items result
  = nodeNameLoop m' containerName items result.
Proof.
  intros Hm. revert result. induction items as [|n items IH]; intros result;
    simpl; [done|].
  rewrite Hm, !IH.
  destruct (ParseContainerID containerName) as [[r id] [e|]]; [done|].
  by rewrite IH.
Qed.


Lemma nodeNameLoop_plain (m : gmap string bool) (items : list selector.Node)
    (result : list selector.NodeObject) :
  nodeNameLoop m "" items result
  = (result ++ (selector.tmpNode
                  <$> filter (λ n, selector.map_get m (selector.node_Name n) = true)
                             items), None).
Proof.
  revert result. induction items as [|n items IH]; intros result; simpl.
  - by rewrite app_nil_r.
  - rewrite filter_cons. destruct (selector.map_get m _) eqn:Hg; simpl.
    + by rewrite IH, <- app_assoc.
    + apply IH.
Qed.

Lemma nodeNameLoop_with_id (m : gmap string bool) (containerName r id : string)
    (items : list selector.Node) (result : list selector.NodeObject) :
  containerName ≠ "" →
  ParseContainerID containerName = (r, id, None) →
  nodeNameLoop m containerName items result
  = (result ++ ((λ n, selector.withRuntime (selector.tmpNode n) r id)
                  <$> filter (λ n, selector.map_get m (selector.node_Name n) = true)
                             items), None).
Proof.
  intros Hcn Hparse. revert result. induction items as [|n items IH];
    intros result; simpl.
  - by rewrite app_nil_r.
  - rewrite filter_cons. destruct (selector.map_get m _) eqn:Hg; simpl.
    + rewrite decide_True by done. rewrite Hparse, IH, <- app_assoc. done.
    + apply IH.
Qed.

(** C10.  By-name resolution of pods and of nodes walks the backend's
    listing and keeps the objects whose name is in the requested list.
    Without a container argument, and for nodes also with one that parses,
    the call succeeds and returns exactly the listed objects whose name is
    requested, in listing order, each once for each time the listing has
    it; with a container name the pod call returns them whenever each of
    them resolves.  So whenever a call succeeds the names it returns are
    the listing's names that were requested, in listing order, and a
    listing without repeated names gives a result without repeated names.
    Requested lists with the same members give the same answer, whatever
    their order and however often a name is repeated in them. *)
Theorem by_name_follows_listing (a : selector.Analyzer) (namespace : string)
    (names : list string) (containerName : string) :
  (∀ podList,
     selector.ApiServer_ListPods a [selector.InNamespace namespace] = (podList, None) →
     let matching := filter (λ p, selector.pod_Name p ∈ names) podList in
     (containerName = "" →
        GetPodListByPodName a namespace names containerName
          = (selector.podInfo <$> matching, None)) ∧
     (containerName ≠ "" →
        ∀ objs, Forall2 (λ p o, resolves containerName p o) matching objs →
          GetPodListByPodName a namespace names containerName = (objs, None)) ∧
     (∀ objs,
        GetPodListByPodName a namespace names containerName = (objs, None) →
        selector.PodName <$> objs
          = filter (λ k, k ∈ names) (selector.pod_Name <$> podList)
        ∧ (NoDup (selector.pod_Name <$> podList)
           → NoDup (selector.PodName <$> objs)))) ∧
  (∀ nodeList,
     selector.ApiServer_ListNodes a [] = (nodeList, None) →
     let matching := filter (λ n, selector.node_Name n ∈ names) nodeList in
     (containerName = "" →
        GetNodeListByNodeName a names containerName
          = (selector.tmpNode <$> matching, None)) ∧
     (∀ r id, containerName ≠ "" →
        ParseContainerID containerName = (r, id, None) →
        GetNodeListByNodeName a names containerName
          = ((λ n, selector.withRuntime (selector.tmpNode n) r id) <$> matching,
             None)) ∧
     (∀ objs,
        GetNodeListByNodeName a names containerName = (objs, None) →
        selector.no_NodeName <$> objs
          = filter (λ k, k ∈ names) (selector.node_Name <$> nodeList)
        ∧ (NoDup (selector.node_Name <$> nodeList)
           → NoDup (selector.no_NodeName <$> objs)))) ∧
  (∀ names' : list string, (∀ k, k ∈ names' ↔ k ∈ names) →
     GetPodListByPodName a namespace names' containerName
       = GetPodListByPodName a namespace names containerName
     ∧ GetNodeListByNodeName a names' containerName
       = GetNodeListByNodeName a names containerName).
Proof.
  unfold selector.GetPodListByPodName, selector.GetNodeListByNodeName.
  split; [|split].
  - intros podList Hlist. rewrite Hlist. cbv zeta.
    rewrite <- (filter_nameMap selector.pod_Name). split; [|split].
    + intros ->. by rewrite podNameLoop_plain.
    + intros Hcn objs Hall. apply podNameLoop_ok; [done|]. by exists objs.
    + intros objs Hloop. apply podNameLoop_names in Hloop. simpl in Hloop.
      rewrite Hloop, (filter_nameMap id). split; [done|]. apply NoDup_filter.
  - intros nodeList Hlist. rewrite Hlist. cbv zeta.
    rewrite <- (filter_nameMap selector.node_Name). split; [|split].
    + intros ->. by rewrite nodeNameLoop_plain.
    + intros r id Hcn Hparse. by rewrite (nodeNameLoop_with_id _ _ r id).
    + intros objs Hloop. apply nodeNameLoop_names in Hloop. simpl in Hloop.
      rewrite Hloop, (filter_nameMap id). split; [done|]. apply NoDup_filter.
  - intros names' Hset. split.
    + destruct (selector.ApiServer_ListPods a _) as [podList [e|]]; [done|].
      apply podNameLoop_ext. by apply nameMap_ext.
    + destruct (selector.ApiServer_ListNodes a _) as [nodeList [e|]]; [done|].
      apply nodeNameLoop_ext. by apply nameMap_ext.
Qed.

End ByName_facts.



Lemma by_name_follows_listing_witness :
  let pods := ["chaosmeta-2"; "chaosmeta-0"; "chaosmeta-2"] in
  let nodes := ["node-2"; "node-1"; "node-2"] in
  (∃ objs,
     selector.GetPodListByPodName sample.FirstContainer sample.ParseContainerID
         sample.analyzer "chaosmeta" pods "nginx" = (objs, None) ∧
     selector.PodName <$> objs = ["chaosmeta-0"; "chaosmeta-2"] ∧
     selector.GetPodListByPodName sample.FirstContainer sample.ParseContainerID
         sample.analyzer "chaosmeta" ["chaosmeta-0"; "chaosmeta-2"] "nginx"
       = (objs, None)) ∧
  selector.GetNodeListByNodeName sample.ParseContainerID sample.analyzer nodes ""
    = ([ selector.tmpNode (sample.node "node-1" "2.2.2.1");
         selector.tmpNode (sample.node "node-2" "2.2.2.2") ], None) ∧
  selector.GetNodeListByNodeName sample.ParseContainerID sample.analyzer nodes
      "docker://g3g3g"
    = ([ selector.withRuntime (selector.tmpNode (sample.node "node-1" "2.2.2.1"))
           "docker" "g3g3g";
         selector.withRuntime (selector.tmpNode (sample.node "node-2" "2.2.2.2"))
           "docker" "g3g3g" ], None) ∧
  selector.GetNodeListByNodeName sample.ParseContainerID sample.analyzer
      ["node-1"; "node-2"] ""
    = selector.GetNodeListByNodeName sample.ParseContainerID sample.analyzer nodes "".
Proof.
  intros pods nodes. split; [|split; [|split]].
  - eexists. split; [vm_compute; reflexivity|].
    destruct (by_name_follows_listing sample.FirstContainer sample.ParseContainerID
                sample.analyzer "chaosmeta" pods "nginx") as (Hpods & _ & Hset).
    split.
    + destruct (proj2 (proj2 (Hpods _ eq_refl)) _ ltac:(vm_compute; reflexivity))
        as [Hnames _].
      rewrite Hnames. vm_compute. reflexivity.
    + destruct (Hset ["chaosmeta-0"; "chaosmeta-2"]) as [Hsame _].
      * intros k. subst pods. rewrite !elem_of_cons, !elem_of_nil. tauto.
      * rewrite Hsame. vm_compute. reflexivity.
  - destruct (by_name_follows_listing sample.FirstContainer sample.ParseContainerID
                sample.analyzer "chaosmeta" nodes "") as (_ & Hnodes & _).
    rewrite (proj1 (Hnodes _ eq_refl) eq_refl). vm_compute. reflexivity.
  - destruct (by_name_follows_listing sample.FirstContainer sample.ParseContainerID
                sample.analyzer "chaosmeta" nodes "docker://g3g3g")
      as (_ & Hnodes & _).
    rewrite (proj1 (proj2 (Hnodes _ eq_refl)) "docker" "g3g3g"
               ltac:(discriminate) eq_refl).
    vm_compute. reflexivity.
  - destruct (by_name_follows_listing sample.FirstContainer sample.ParseContainerID
                sample.analyzer "chaosmeta" nodes "") as (_ & _ & Hset).
    apply (Hset ["node-1"; "node-2"]).
    intros k. subst nodes. rewrite !elem_of_cons, !elem_of_nil. tauto.
Defined.


(** ** The running pass of the phase handler *)

Lemma active_withActive (st : phasehandler.ExperimentStatus)
    (overall : phasehandler.StatusType)
    (units : list phasehandler.ExperimentDetailUnit) :
  phasehandler.active (phasehandler.withActive st overall units) = units.
Proof. unfold phasehandler.active, phasehandler.withActive. by destruct st as [[] ? ?]. Qed.

Lemma runningUnit_query_fails (h : phasehandler.ScopeHandler)
    (phase : phasehandler.PhaseType) (u : phasehandler.ExperimentDetailUnit) :
  (∀ obj uid, ∃ e, (phasehandler.QueryExperiment h obj uid phase).2 = Some e) →
  phasehandler.runningUnit h phase u = phasehandler.withStatus u phasehandler.Failed.
Proof.
  intros Hq. unfold phasehandler.runningUnit.
  destruct (phasehandler.GetInjectObject h _) as [[obj|] [e|]]; try done.
  destruct (Hq obj (phasehandler.UID u)) as [e He].
  destruct (phasehandler.QueryExperiment h obj _ phase) as [[reported|] [e'|]];
    simpl in He; done.
Qed.

Lemma aggregate_Success (units : list phasehandler.ExperimentDetailUnit) :
  phasehandler.aggregate units = phasehandler.Success →
  Forall (λ u, phasehandler.du_Status u = phasehandler.Success) units.
Proof.
  unfold phasehandler.aggregate.
  destruct (forallb (λ u, phasehandler.terminal _) units); [|discriminate].
  destruct (forallb (λ u, bool_decide _) units) eqn:Hall; [|discriminate].
  intros _. apply Forall_forall. intros u Hu.
  rewrite forallb_forall in Hall. apply list_elem_of_In in Hu.
  by apply Hall, bool_decide_eq_true in Hu.
Qed.

Lemma aggregate_all_Failed (units : list phasehandler.ExperimentDetailUnit) :
  units ≠ [] →
  Forall (λ u, phasehandler.du_Status u = phasehandler.Failed) units →
  phasehandler.aggregate units = phasehandler.Failed.
Proof.
  intros Hne Hall. unfold phasehandler.aggregate.
  assert (forallb (λ u, phasehandler.terminal (phasehandler.du_Status u)) units
          = true) as ->.
  { apply forallb_forall. intros u Hu%list_elem_of_In.
    rewrite Forall_forall in Hall. by rewrite (Hall u Hu). }
  destruct units as [|u units]; [done|]. simpl.
  apply Forall_cons in Hall as [Hu _]. rewrite Hu. reflexivity.
Qed.

(** C3.  Take an experiment that is Running, with at least one target, all
    of whose detail units in the active direction are Running, so that
    [SolveRunning] queries every one of them.  If [QueryExperiment] fails
    for every target, then after the pass every detail unit of the active
    direction is Failed and so is the overall status.  Whatever the queries
    answer, the overall status is Success after the pass only if every
    detail unit of the active direction is. *)
Theorem SolveRunning_query_failures (h : phasehandler.ScopeHandler)
    (st : phasehandler.ExperimentStatus) :
  phasehandler.Status st = phasehandler.Running →
  (phasehandler.active st ≠ [] →
   Forall (λ u, phasehandler.du_Status u = phasehandler.Running)
          (phasehandler.active st) →
   (∀ obj uid, ∃ e,
       (phasehandler.QueryExperiment h obj uid (phasehandler.Phase st)).2 = Some e) →
   Forall (λ u, phasehandler.du_Status u = phasehandler.Failed)
          (phasehandler.active (phasehandler.SolveRunning h st))
   ∧ phasehandler.Status (phasehandler.SolveRunning h st) = phasehandler.Failed) ∧
  (phasehandler.Status (phasehandler.SolveRunning h st) = phasehandler.Success →
   Forall (λ u, phasehandler.du_Status u = phasehandler.Success)
          (phasehandler.active (phasehandler.SolveRunning h st))).
Proof.
  intros Hrun. unfold phasehandler.SolveRunning. rewrite decide_True by done.
  rewrite active_withActive. simpl. split.
  - intros Hne Hall Hq.
    assert (Forall (λ u, phasehandler.du_Status u = phasehandler.Failed)
              ((λ u, if decide (phasehandler.du_Status u = phasehandler.Running)
                     then phasehandler.runningUnit h (phasehandler.Phase st) u
                     else u) <$> phasehandler.active st)) as Hfailed.
    { apply Forall_fmap. eapply Forall_impl; [exact Hall|].
      intros u Hu. simpl. rewrite decide_True by done.
      by rewrite runningUnit_query_fails. }
    split; [done|]. apply aggregate_all_Failed; [|done].
    by destruct (phasehandler.active st).
  - apply aggregate_Success.
Qed.

Lemma SolveRunning_query_failures_witness :
  Forall (λ u, phasehandler.du_Status u = phasehandler.Failed)
         (phasehandler.active
            (phasehandler.SolveRunning sample.mockHandler sample.exp))
  ∧ phasehandler.Status (phasehandler.SolveRunning sample.mockHandler sample.exp)
    = phasehandler.Failed.
Proof.
  apply (proj1 (SolveRunning_query_failures sample.mockHandler sample.exp
                  eq_refl)).
  - discriminate.
  - repeat constructor.
  - intros obj uid. by exists "expected fail".
Defined.


(** ** The worker pool during a pass *)

Lemma sum_list_fmap_insert {A : Type} (f : A → nat) (l : list A) (i : nat) (x y : A)
    (fx fy : nat) :
  l !! i = Some x → f x = fx → f y = fy →
  (sum_list (f <$> <[i := y]> l) + fx = sum_list (f <$> l) + fy)%nat.
Proof.
  intros Hi <- <-. revert i Hi. induction l as [|a l IH]; intros i; [done|].
  destruct i as [|i]; csimpl.
  - intros [= ->]. lia.
  - intros Hi. specialize (IH i Hi). lia.
Qed.

Section Pool_facts.
Variable size : nat.
Variable needs : phasehandler.ExperimentDetailUnit → bool.
Variable work : phasehandler.ExperimentDetailUnit → phasehandler.ExperimentDetailUnit.
Variable units : list phasehandler.ExperimentDetailUnit.

Local Abbreviation step := (phasehandler.step size work).
Local Abbreviation begin := (phasehandler.begin needs units).
Local Abbreviation invariant := (phasehandler.invariant size needs work units).

Lemma begin_invariant : invariant begin.
Proof.
  unfold phasehandler.invariant, phasehandler.begin, phasehandler.in_flight.
  simpl. split; [|split; [lia|]].
  - induction units as [|u us IH]; [done|]. csimpl. rewrite <- IH.
    unfold phasehandler.flying. simpl. by destruct (needs u).
  - induction units as [|u us IH]; constructor; [|done].
    unfold phasehandler.tracks. simpl. by destruct (needs u).
Qed.

Lemma step_invariant (s s' : phasehandler.pass) :
  invariant s → step s s' → invariant s'.
Proof.
  intros (Hlen & Hle & Htr) Hstep.
  destruct Hstep as [s i u Hi Hfree|s i u Hi];
    (split; [|split]); simpl.
  - unfold phasehandler.in_flight in *. simpl.
    pose proof (sum_list_fmap_insert phasehandler.flying _ i _
                  (phasehandler.InFlight, u) 0 1 Hi eq_refl eq_refl) as Hsum.
    lia.
  - lia.
  - destruct (Forall2_lookup_r _ _ _ i _ Htr Hi) as (u0 & Hu0 & Hu).
    rewrite <- (list_insert_id units i u0) by done.
    apply Forall2_insert; [done|]. exact Hu.
  - unfold phasehandler.in_flight in *. simpl.
    pose proof (sum_list_fmap_insert phasehandler.flying _ i _
                  (phasehandler.Finished, work u) 1 0 Hi eq_refl eq_refl) as Hsum.
    lia.
  - lia.
  - destruct (Forall2_lookup_r _ _ _ i _ Htr Hi) as (u0 & Hu0 & Hu).
    rewrite <- (list_insert_id units i u0) by done.
    apply Forall2_insert; [done|].
    destruct Hu as [Hu Hneeds]. simpl in Hu. subst u0.
    unfold phasehandler.tracks. simpl. by rewrite Hneeds.
Qed.

Lemma reachable_invariant (s : phasehandler.pass) :
  rtc step begin s → invariant s.
Proof.
  intros Hr. apply rtc_ind_r with (x := begin) (P := λ s, invariant s) in Hr;
    [done | apply begin_invariant |].
  intros y z _ Hstep Hinv. by eapply step_invariant.
Qed.

Lemma step_remaining (s s' : phasehandler.pass) :
  step s s' → (phasehandler.remaining s' < phasehandler.remaining s)%nat.
Proof.
  unfold phasehandler.remaining. intros [s0 i u Hi Hfree|s0 i u Hi]; simpl.
  - pose proof (sum_list_fmap_insert phasehandler.weight _ i _
                  (phasehandler.InFlight, u) 2 1 Hi eq_refl eq_refl) as Hsum.
    lia.
  - pose proof (sum_list_fmap_insert phasehandler.weight _ i _
                  (phasehandler.Finished, work u) 1 0 Hi eq_refl eq_refl) as Hsum.
    lia.
Qed.

Lemma joined_results (s : phasehandler.pass) :
  invariant s → phasehandler.joined s →
  phasehandler.pool_len s = 0%nat
  ∧ (snd <$> phasehandler.targets s) = ((λ u, if needs u then work u else u) <$> units).
Proof.
  destruct s as [n ts]. intros (Hlen & _ & Htr) Hj.
  unfold phasehandler.joined, phasehandler.in_flight in *. simpl in *.
  subst n. split.
  - clear Htr. induction Hj as [|[sl u] ts Ht _ IH]; [done|].
    csimpl. simpl in Ht. subst sl. by rewrite IH.
  - induction Htr as [|u [sl r] us ts Hu _ IH]; [done|].
    apply Forall_cons in Hj as [Hsl Hj]. simpl in Hsl. subst sl.
    unfold phasehandler.tracks in Hu. simpl in Hu. csimpl. by rewrite Hu, IH.
Qed.

Lemma no_flight_no_slot (ts : list (phasehandler.slot * phasehandler.ExperimentDetailUnit)) :
  Forall (λ t, t.1 ≠ phasehandler.InFlight) ts →
  sum_list (phasehandler.flying <$> ts) = 0%nat.
Proof.
  induction 1 as [|[sl u] ts Ht _ IH]; [done|]. csimpl. rewrite IH.
  unfold phasehandler.flying. simpl in *. by destruct sl.
Qed.

Lemma pass_progress (s : phasehandler.pass) :
  (1 ≤ size)%nat → invariant s → ¬ phasehandler.joined s → ∃ s', step s s'.
Proof.
  intros Hsize (Hlen & _ & _) Hnj.
  destruct (decide (Exists (λ t, t.1 = phasehandler.InFlight) (phasehandler.targets s)))
    as [Hfly|Hnone].
  - apply Exists_exists in Hfly as ([sl u] & Hin & Hsl). simpl in Hsl. subst sl.
    apply list_elem_of_lookup in Hin as [i Hi].
    eexists. by eapply phasehandler.step_finish.
  - apply not_Exists_Forall in Hnone; [|solve_decision].
    apply not_Forall_Exists in Hnj; [|solve_decision].
    apply Exists_exists in Hnj as ([sl u] & Hin & Hsl). simpl in Hsl.
    rewrite Forall_forall in Hnone. pose proof (Hnone _ Hin) as Hsl'. simpl in Hsl'.
    destruct sl; try done.
    apply list_elem_of_lookup in Hin as [i Hi].
    eexists. eapply phasehandler.step_submit; [done|].
    unfold phasehandler.in_flight in Hlen.
    rewrite Hlen, no_flight_no_slot; [lia|]. by apply Forall_forall.
Qed.

Lemma pass_completes (s : phasehandler.pass) :
  (1 ≤ size)%nat → invariant s →
  ∃ s', rtc step s s' ∧ phasehandler.joined s'.
Proof.
  intros Hsize. remember (phasehandler.remaining s) as n eqn:Hn.
  revert s Hn. induction (lt_wf n) as [n _ IH]. intros s -> Hinv.
  destruct (decide (Forall (λ t, t.1 = phasehandler.Finished) (phasehandler.targets s)))
    as [Hj|Hnj].
  - exists s. split; [apply rtc_refl | done].
  - destruct (pass_progress s Hsize Hinv Hnj) as [s1 Hstep].
    destruct (IH _ (step_remaining _ _ Hstep) s1 eq_refl
                (step_invariant _ _ Hinv Hstep)) as (s' & Hrun & Hj).
    exists s'. split; [by eapply rtc_l | done].
Qed.

(** C9.  Take a pool of any size of at least 1 and a pass over any list of
    targets that begins with nothing outstanding.  In every state the pass
    can reach, the outstanding count is the number of targets in flight
    and within the pool size.  The pass returns only once every target is
    done, and then the outstanding count is 0 and each target that needed
    work carries the result of its work.  Until then some target can
    always proceed, every step uses up remaining work, and a state in which
    the pass returns with the pool drained can be reached. *)
Theorem pass_drains_pool (s : phasehandler.pass) :
  (1 ≤ size)%nat → rtc step begin s →
  phasehandler.pool_len s = phasehandler.in_flight s ∧
  (phasehandler.pool_len s ≤ size)%nat ∧
  (phasehandler.joined s →
     phasehandler.pool_len s = 0%nat
     ∧ (snd <$> phasehandler.targets s)
       = ((λ u, if needs u then work u else u) <$> units)) ∧
  (¬ phasehandler.joined s → ∃ s', step s s') ∧
  (∀ s', step s s' → (phasehandler.remaining s' < phasehandler.remaining s)%nat) ∧
  (∃ s', rtc step s s' ∧ phasehandler.joined s' ∧ phasehandler.pool_len s' = 0%nat).
Proof.
  intros Hsize Hreach. pose proof (reachable_invariant s Hreach) as Hinv.
  split; [apply Hinv|]. split; [apply Hinv|]. split; [by apply joined_results|].
  split; [by apply pass_progress|]. split; [apply step_remaining|].
  destruct (pass_completes s Hsize Hinv) as (s' & Hrun & Hj).
  exists s'. split; [done|]. split; [done|].
  apply joined_results; [|done]. apply reachable_invariant. by etrans.
Qed.

(** A pool without slots never lets a pass start its work. *)
Remark empty_pool_is_stuck (s' : phasehandler.pass) :
  ¬ phasehandler.step 0 work begin s'.
Proof.
  inversion 1 as [s i u Hi Hfree|s i u Hi]; subst; [lia|].
  unfold phasehandler.begin in Hi. simpl in Hi.
  rewrite list_lookup_fmap in Hi.
  destruct (units !! i) as [u0|]; [|done]. simpl in Hi. by destruct (needs u0).
Qed.

End Pool_facts.

(** Whatever order the targets were worked on, the status a joined running
    pass leaves behind is the one [SolveRunning] computes. *)
Lemma SolveRunning_joins_the_pass (h : phasehandler.ScopeHandler) (size : nat)
    (st : phasehandler.ExperimentStatus) (s : phasehandler.pass) :
  let needs := λ u, bool_decide (phasehandler.du_Status u = phasehandler.Running) in
  let work := phasehandler.runningUnit h (phasehandler.Phase st) in
  phasehandler.Status st = phasehandler.Running →
  rtc (phasehandler.step size work)
      (phasehandler.begin needs (phasehandler.active st)) s →
  phasehandler.joined s →
  phasehandler.SolveRunning h st
  = phasehandler.withActive st
      (phasehandler.aggregate (snd <$> phasehandler.targets s))
      (snd <$> phasehandler.targets s).
Proof.
  intros needs work Hrun Hreach Hj.
  pose proof (reachable_invariant size needs work _ s Hreach) as Hinv.
  destruct (joined_results size needs work _ s Hinv Hj) as [_ ->].
  unfold phasehandler.SolveRunning. rewrite decide_True by done.
  assert (((λ u, if needs u then work u else u) <$> phasehandler.active st)
          = ((λ u, if decide (phasehandler.du_Status u = phasehandler.Running)
                   then phasehandler.runningUnit h (phasehandler.Phase st) u
                   else u) <$> phasehandler.active st)) as ->; [|done].
  apply list_fmap_ext. intros i u _. subst needs work. simpl.
  by case_bool_decide; case_decide.
Qed.

Lemma pass_drains_pool_witness :
  (let needs := λ u, bool_decide (phasehandler.du_Status u = phasehandler.Created) in
   let work := phasehandler.createdUnit sample.mockHandler in
   ∃ s', rtc (phasehandler.step 5 work) (phasehandler.begin needs sample.created) s'
         ∧ phasehandler.joined s' ∧ phasehandler.pool_len s' = 0%nat) ∧
  (let needs := λ u, bool_decide (phasehandler.du_Status u = phasehandler.Running) in
   let work := phasehandler.runningUnit sample.mockHandler phasehandler.RecoverPhaseType in
   let units := phasehandler.active sample.exp in
   ∃ s', rtc (phasehandler.step 1 work) (phasehandler.begin needs units) s'
         ∧ phasehandler.joined s' ∧ phasehandler.pool_len s' = 0%nat).
Proof.
  split.
  - intros needs work.
    apply (pass_drains_pool 5 needs work sample.created
             (phasehandler.begin needs sample.created)); [lia | apply rtc_refl].
  - intros needs work units.
    apply (pass_drains_pool 1 needs work units (phasehandler.begin needs units));
      [lia | apply rtc_refl].
Defined.

(** * Further properties of the process executor *)

(** X1.  Only the first non-empty snapshot of the buffers counts: two
    children whose buffers agree up to and including the first expiry at
    which one is non-empty get the same verdict, whatever they write later
    and however long the caller would have been prepared to wait. *)
Theorem waitProExec_first_output_decides (fuel fuel' n : nat)
    (buf buf' : cmdexec.buffers) :
  (∀ k, (k < n)%nat → buf k = ("", "")) → buf n ≠ ("", "") →
  (∀ k, (k ≤ n)%nat → buf' k = buf k) →
  (n < fuel)%nat → (n < fuel')%nat →
  cmdexec.waitProExec fuel' buf' = cmdexec.waitProExec fuel buf
  ∧ cmdexec.waitProExec fuel buf ≠ cmdexec.StillWaiting.
Proof.
  intros Hq Hne Hagree Hn Hn'. unfold cmdexec.waitProExec.
  rewrite (poll_first fuel 0 n buf) by (try done; try lia; intros k Hk; apply Hq; lia).
  rewrite (poll_first fuel' 0 n buf').
  - by rewrite Hagree by lia.
  - lia.
  - intros k Hk. rewrite Hagree by lia. apply Hq. lia.
  - by rewrite Hagree by lia.
Qed.

Lemma waitProExec_first_output_decides_witness :
  cmdexec.waitProExec 7
    (λ k, if decide (k < 2)%nat then ("", "")
          else if decide (k = 2)%nat then ("[success] inject success", "")
          else ("[success] inject success", "error: lost the cgroup"))
  = cmdexec.waitProExec 3 sample.slowSuccess.
Proof.
  apply (waitProExec_first_output_decides 3 7 2 sample.slowSuccess).
  - intros k Hk. unfold sample.slowSuccess. by rewrite decide_True.
  - vm_compute. discriminate.
  - intros k Hk. unfold sample.slowSuccess.
    destruct (decide (k < 2)%nat); [done|]. rewrite decide_True by lia. done.
  - lia.
  - lia.
Defined.

(** X2.  [waitProExec] returns nil exactly when, at the first expiry with a
    non-empty buffer, stdout followed by stderr contains ["[success]"] and
    does not contain ["error"]: a success marker never outweighs an
    ["error"] anywhere in the two buffers. *)
Theorem waitProExec_succeeds_iff (fuel : nat) (buf : cmdexec.buffers) :
  cmdexec.waitProExec fuel buf = cmdexec.Returned None
  ↔ ∃ n : nat, (n < fuel)%nat ∧ (∀ k, (k < n)%nat → buf k = ("", ""))
      ∧ buf n ≠ ("", "")
      ∧ strings.Contains ((buf n).1 +:+ (buf n).2) "[success]"
      ∧ ¬ strings.Contains ((buf n).1 +:+ (buf n).2) "error".
Proof.
  unfold cmdexec.waitProExec. split.
  - destruct (cmdexec.poll fuel 0 buf) as [[n msg]|] eqn:Hp; [|discriminate].
    apply poll_Some in Hp as (Hn & Hq & Hne & ->). intros [= Hc].
    exists n. split; [lia|]. split; [intros k Hk; apply Hq; lia|]. split; [done|].
    unfold cmdexec.classify in Hc. rewrite <- !Index_nonneg.
    repeat case_bool_decide; done.
  - intros (n & Hn & Hq & Hne & Hs & He).
    rewrite (poll_first fuel 0 n buf) by (try done; try lia; intros k Hk; apply Hq; lia).
    unfold cmdexec.classify. rewrite <- Index_nonneg in Hs, He.
    by rewrite bool_decide_eq_false_2, bool_decide_eq_true_2.
Qed.

Section Executor_facts.
Variable os : list string → cmdexec.child.
Variable NoPid : Z.
Variable GetToolPath : string → string.
Variable docker_GetClient : option crclient.Client * error.

Local Abbreviation ExecContainer :=
  (cmdexec.ExecContainer os NoPid GetToolPath docker_GetClient).

(** X3.  Run as another user, a command is judged as it is under bash: when
    [runuser] starts the same child (same start result, same output),
    [StartBashCmdAndWaitByUser] returns exactly the error that
    [StartBashCmdAndWaitPid] returns beside the pid, and waits exactly when
    that one waits. *)
Theorem StartBashCmdAndWaitByUser_judges_alike (fuel : nat) (cmd user : string)
    (w : cmdexec.spawned) :
  let asUser := os ["runuser"; "-l"; user; "-c"; cmd] in
  let asBash := os ["/bin/bash"; "-c"; cmd] in
  cmdexec.start_err asUser = cmdexec.start_err asBash →
  cmdexec.output asUser = cmdexec.output asBash →
  (∀ r : error,
     (cmdexec.StartBashCmdAndWaitByUser os fuel cmd user w).1 = cmdexec.Returned r
     ↔ ∃ pid, (cmdexec.StartBashCmdAndWaitPid os NoPid fuel cmd w).1
              = cmdexec.Returned (pid, r)) ∧
  ((cmdexec.StartBashCmdAndWaitByUser os fuel cmd user w).1 = cmdexec.StillWaiting
   ↔ (cmdexec.StartBashCmdAndWaitPid os NoPid fuel cmd w).1 = cmdexec.StillWaiting).
Proof.
  intros asUser asBash Hs Ho.
  unfold cmdexec.StartBashCmdAndWaitByUser, cmdexec.StartBashCmdAndWaitPid.
  fold asUser asBash. rewrite Hs, Ho.
  destruct (cmdexec.start_err asBash) as [e|]; simpl.
  - split; [|split; discriminate].
    intros r. split; [intros [= <-]; by eexists | intros [pid [= _ <-]]; done].
  - destruct (cmdexec.waitProExec fuel (cmdexec.output asBash)) as [[e|]| |]; simpl.
    + split; [|split; discriminate].
      intros r. split; [intros [= <-]; by eexists | intros [pid [= _ <-]]; done].
    + split; [|split; discriminate].
      intros r. split; [intros [= <-]; by eexists | intros [pid [= _ <-]]; done].
    + split; [|split; discriminate].
      intros r. split; [discriminate | intros [pid [=]]].
    + split; [|done].
      intros r. split; [discriminate | intros [pid [=]]].
Qed.

(** X4.  [ExecContainer] adds at most one process to those already
    spawned, never removes one, and what it adds is bash running a line
    that begins with the namespace-entering tool.  When it returns having
    spawned nothing, it returns [NoPid] with an error; when it returns
    having spawned a process, the pid it returns is that process's. *)
Theorem ExecContainer_spawns_at_most_once (fuel : nat)
    (cmd cr containerId namespaces : string) (w : cmdexec.spawned) :
  let res := ExecContainer fuel cmd cr containerId namespaces w in
  (res.2 = w
   ∧ ∀ pid err, res.1 = cmdexec.Returned (pid, err) → pid = NoPid ∧ err ≠ None)
  ∨ (∃ targetPid child,
       res.2 = w ++ [(["/bin/bash"; "-c";
                       GetToolPath "chaosmeta_execns" +:+ " " +:+ fmt_d targetPid
                         +:+ " " +:+ namespaces +:+ " " +:+ cmd], child)]
       ∧ ∀ pid err, res.1 = cmdexec.Returned (pid, err) → pid = child).
Proof.
  unfold cmdexec.ExecContainer.
  destruct (crclient.GetClient docker_GetClient cr) as [[client|] [e|]]; simpl;
    try (left; split; [done|]; intros pid err [=]; by subst).
  destruct (crclient.GetPidById client containerId) as [targetPid [e|]]; simpl;
    try (left; split; [done|]; intros pid err [=]; by subst).
  unfold cmdexec.StartBashCmdAndWaitPid, cmdexec.execnsCmd, cmdexec.execnsKey.
  destruct (cmdexec.start_err _) as [e|]; simpl;
    try (left; split; [done|]; intros pid err [=]; by subst).
  right. eexists targetPid, _.
  destruct (cmdexec.waitProExec _ _) as [[e|]| |]; simpl;
    (split; [reflexivity|]); intros pid err [=]; by subst.
Qed.

(** X5.  Whatever the docker package does, [ExecContainer] with a runtime
    other than [docker] starts nothing and returns [NoPid] with an error
    that names the runtime. *)
Theorem ExecContainer_only_for_docker (fuel : nat)
    (cmd cr containerId namespaces : string) (w : cmdexec.spawned) :
  cr ≠ "docker" →
  ∃ reason,
    ExecContainer fuel cmd cr containerId namespaces w
      = (cmdexec.Returned
           (NoPid, Some ("get cr[" +:+ cr +:+ "] client error: " +:+ reason)), w)
    ∧ (cr = "containerd" → reason = "to be supported")
    ∧ (cr ≠ "containerd" → reason = "not support container runtime: " +:+ cr).
Proof.
  intros Hcr. unfold cmdexec.ExecContainer, crclient.GetClient.
  rewrite decide_False by done. case_decide as Hc.
  - eexists. split; [reflexivity|]. split; done.
  - eexists. split; [reflexivity|]. split; done.
Qed.

(** X7.  [StartBashCmd] spawns the very process [StartBashCmdAndWaitPid]
    spawns, but hands back the error of [Start] as it is and does not wait:
    for a child that starts and stays silent it returns nil, whereas
    [StartBashCmdAndWaitPid] has not returned after any number of timer
    expiries. *)
Theorem StartBashCmd_does_not_wait (cmd : string) (w : cmdexec.spawned) :
  let c := os ["/bin/bash"; "-c"; cmd] in
  (∀ fuel, (cmdexec_start.StartBashCmd os cmd w).2
           = (cmdexec.StartBashCmdAndWaitPid os NoPid fuel cmd w).2) ∧
  (cmdexec_start.StartBashCmd os cmd w).1 = cmdexec.start_err c ∧
  (cmdexec.start_err c = None →
   (∀ k, cmdexec.output c k = ("", "")) →
   (cmdexec_start.StartBashCmd os cmd w).1 = None
   ∧ ∀ fuel, (cmdexec.StartBashCmdAndWaitPid os NoPid fuel cmd w).1
             = cmdexec.StillWaiting).
Proof.
  intros c. unfold cmdexec_start.StartBashCmd, cmdexec.StartBashCmdAndWaitPid.
  fold c. split; [|split].
  - intros fuel. destruct (cmdexec.start_err c); [done|].
    by destruct (cmdexec.waitProExec _ _) as [[e|]| |].
  - by destruct (cmdexec.start_err c).
  - intros -> Hsilent. split; [done|]. intros fuel.
    unfold cmdexec.waitProExec. rewrite poll_quiet; [done|].
    intros k _. apply Hsilent.
Qed.

End Executor_facts.

Lemma StartBashCmdAndWaitByUser_judges_alike_witness :
  ∃ pid, (cmdexec.StartBashCmdAndWaitPid sample.os sample.NoPid 5 "bad" []).1
         = cmdexec.Returned
             (pid, Some "wait process exec error: inject error: error: fault not supported").
Proof.
  apply (proj1 (StartBashCmdAndWaitByUser_judges_alike sample.os sample.NoPid
                  5 "bad" "admin" [] eq_refl eq_refl)).
  reflexivity.
Defined.

Lemma ExecContainer_only_for_docker_witness :
  ∃ reason,
    cmdexec.ExecContainer sample.os sample.NoPid sample.GetToolPath
        (Some sample.dockerClient, None) 5 "cpu burn" "containerd" "g3g3g" "pid" []
      = (cmdexec.Returned
           (-1, Some ("get cr[containerd] client error: " +:+ reason)), [])
    ∧ reason = "to be supported".
Proof.
  destruct (ExecContainer_only_for_docker sample.os sample.NoPid sample.GetToolPath
              (Some sample.dockerClient, None) 5 "cpu burn" "containerd" "g3g3g"
              "pid" []) as (reason & Hres & Hc & _); [discriminate|].
  exists reason. split; [exact Hres | by apply Hc].
Defined.

Lemma StartBashCmd_does_not_wait_witness :
  (cmdexec_start.StartBashCmd sample.os "sleep 100" []).1 = None
  ∧ (cmdexec.StartBashCmdAndWaitPid sample.os sample.NoPid 1000 "sleep 100" []).1
    = cmdexec.StillWaiting.
Proof.
  destruct (proj2 (proj2 (StartBashCmd_does_not_wait sample.os sample.NoPid
                            "sleep 100" [])) eq_refl) as [Hstart Hwait].
  - intros k. reflexivity.
  - split; [exact Hstart | apply Hwait].
Defined.

(** * Further properties of the analyzer *)

(** ** The address scan of a node *)

Lemma setAddress_scanAddress (n0 : selector.NodeObject)
    (addrs : list selector.NodeAddress) :
  foldl selector.setAddress n0 addrs
  = {| selector.no_NodeName := selector.no_NodeName n0;
       selector.no_NodeInternalIP :=
         (foldl analyzer.scanAddress
            (selector.no_NodeInternalIP n0, selector.no_HostName n0) addrs).1;
       selector.no_HostName :=
         (foldl analyzer.scanAddress
            (selector.no_NodeInternalIP n0, selector.no_HostName n0) addrs).2;
       selector.no_ContainerRuntime := selector.no_ContainerRuntime n0;
       selector.no_ContainerID := selector.no_ContainerID n0 |}.
Proof.
  revert n0. induction addrs as [|ad addrs IH]; intros n0; simpl.
  - by destruct n0.
  - rewrite IH. unfold selector.setAddress, analyzer.scanAddress.
    by repeat case_decide.
Qed.

Lemma tmpNode_scan (unitNode : selector.Node) :
  selector.tmpNode unitNode
  = let scan := foldl analyzer.scanAddress ("", "")
                  (selector.node_Status_Addresses unitNode) in
    {| selector.no_NodeName := selector.node_Name unitNode;
       selector.no_NodeInternalIP := scan.1;
       selector.no_HostName := scan.2;
       selector.no_ContainerRuntime := "";
       selector.no_ContainerID := "" |}.
Proof. unfold selector.tmpNode. by rewrite setAddress_scanAddress. Qed.

(** X8.  A node's internal IP and host name are those of the last address
    of type [InternalIP], respectively [Hostname], in its status; they are
    empty when it has no such address, and addresses of other types are
    ignored. *)
Theorem tmpNode_last_address_wins (unitNode : selector.Node) :
  let ofType ty :=
    selector.addr_Address
      <$> filter (λ ad, selector.addr_Type ad = ty)
                 (selector.node_Status_Addresses unitNode) in
  selector.no_NodeInternalIP (selector.tmpNode unitNode)
    = default "" (last (ofType "InternalIP"))
  ∧ selector.no_HostName (selector.tmpNode unitNode)
    = default "" (last (ofType "Hostname"))
  ∧ selector.no_NodeName (selector.tmpNode unitNode) = selector.node_Name unitNode.
Proof.
  intros ofType. subst ofType. rewrite tmpNode_scan. simpl.
  split; [|split; [|done]].
  - induction (selector.node_Status_Addresses unitNode) as [|ad addrs IH]
      using rev_ind; [done|].
    rewrite foldl_app, filter_app, fmap_app. simpl.
    rewrite filter_cons, filter_nil. unfold analyzer.scanAddress at 1.
    case_decide as Hty; simpl.
    + by rewrite last_snoc.
    + rewrite app_nil_r. by case_decide.
  - induction (selector.node_Status_Addresses unitNode) as [|ad addrs IH]
      using rev_ind; [done|].
    rewrite foldl_app, filter_app, fmap_app. simpl.
    rewrite filter_cons, filter_nil. unfold analyzer.scanAddress at 1.
    case_decide as Hty; simpl.
    + rewrite decide_False by congruence. simpl. by rewrite app_nil_r.
    + case_decide; simpl; [by rewrite last_snoc | by rewrite app_nil_r].
Qed.

Lemma filter_all {A : Type} (P : A → Prop) `{!∀ x, Decision (P x)} (l : list A) :
  Forall P l → filter P l = l.
Proof.
  induction 1 as [|x l Hx _ IH]; [done|]. by rewrite filter_cons_True, IH.
Qed.

Section Analyzer_facts.
Variable FirstContainer : string.
Variable ParseContainerID : string → string * string * error.

Local Abbreviation GetPodListByPodName :=
  (selector.GetPodListByPodName FirstContainer ParseContainerID).
Local Abbreviation GetNodeListByNodeName :=
  (selector.GetNodeListByNodeName ParseContainerID).
Local Abbreviation GetPodListByLabel :=
  (analyzer.GetPodListByLabel FirstContainer ParseContainerID).
Local Abbreviation GetPod := (analyzer.GetPod FirstContainer ParseContainerID).
Local Abbreviation GetNodeListByLabel := (analyzer.GetNodeListByLabel ParseContainerID).
Local Abbreviation GetNodeListByNodeIP := (analyzer.GetNodeListByNodeIP ParseContainerID).

(** ** By label *)

Lemma podLabelLoop_as_podNameLoop (m : gmap string bool) (containerName : string)
    (items : list selector.Pod) (result : list selector.PodObject) :
  Forall (λ p, selector.map_get m (selector.pod_Name p) = true) items →
  selector.podNameLoop FirstContainer ParseContainerID m containerName items result
  = analyzer.podLabelLoop FirstContainer ParseContainerID containerName items result.
Proof.
  intros Hall. revert result. induction Hall as [|p items Hp _ IH]; intros result;
    simpl; [done|].
  rewrite Hp. simpl. rewrite !IH.
  destruct (selector.GetTargetContainer _ _ _ _) as [[[r id] name] [e|]]; [done|].
  by rewrite IH.
Qed.

Lemma podLabelLoop_names (containerName : string) (items : list selector.Pod)
    (result objs : list selector.PodObject) :
  analyzer.podLabelLoop FirstContainer ParseContainerID containerName items result
    = (objs, None) →
  selector.PodName <$> objs
  = (selector.PodName <$> result) ++ (selector.pod_Name <$> items).
Proof.
  revert result. induction items as [|p items IH]; intros result; simpl.
  - intros [= <-]. by rewrite app_nil_r.
  - case_decide.
    + destruct (selector.GetTargetContainer _ _ _ _) as [[[r id] name] [e|]];
        [discriminate|].
      intros ->%IH. by rewrite fmap_app, <- app_assoc.
    + intros ->%IH. by rewrite fmap_app, <- app_assoc.
Qed.

(** X9.  When it succeeds, [GetPodListByLabel] returns one object for every
    pod the backend listed, in listing order.  It is [GetPodListByPodName]
    with every listed name requested: when the two listings are the same
    pods and every listed pod's name is in the name list, the two calls
    return the same objects or fail with the same error. *)
Theorem GetPodListByLabel_returns_every_listed_pod (a : analyzer.ApiServer)
    (namespace : string) (label : gmap string string) (containerName : string)
    (podList : list selector.Pod) :
  selector.ApiServer_ListPods (analyzer.lists a)
    [selector.InNamespace namespace; selector.MatchingLabels label] = (podList, None) →
  (∀ objs, GetPodListByLabel a namespace label containerName = (objs, None) →
     selector.PodName <$> objs = selector.pod_Name <$> podList) ∧
  (∀ podName,
     selector.ApiServer_ListPods (analyzer.lists a) [selector.InNamespace namespace]
       = (podList, None) →
     Forall (λ p, selector.pod_Name p ∈ podName) podList →
     GetPodListByPodName (analyzer.lists a) namespace podName containerName
       = GetPodListByLabel a namespace label containerName).
Proof.
  intros Hlist. unfold analyzer.GetPodListByLabel, selector.GetPodListByPodName.
  rewrite Hlist. split.
  - intros objs Hloop. by apply podLabelLoop_names in Hloop.
  - intros podName -> Hall. apply podLabelLoop_as_podNameLoop.
    eapply Forall_impl; [exact Hall|]. intros p Hp. by apply map_get_nameMap.
Qed.

(** ** One pod *)

(** X10.  [GetPod] and [GetPodListByPodName] agree on a single pod: when the
    backend's [Get] answers with the pod that its listing of the namespace
    shows as the only one of that name, asking for the list of that one
    name returns just the object [GetPod] returns, or fails with the error
    [GetPod] fails with. *)
Theorem GetPod_agrees_with_GetPodListByPodName (a : analyzer.ApiServer)
    (ns podName containerName : string) (pod : selector.Pod)
    (podList : list selector.Pod) :
  analyzer.ApiServer_GetPod a ns podName = (pod, None) →
  selector.ApiServer_ListPods (analyzer.lists a) [selector.InNamespace ns]
    = (podList, None) →
  filter (λ p, selector.pod_Name p ∈ [podName]) podList = [pod] →
  GetPodListByPodName (analyzer.lists a) ns [podName] containerName
  = match GetPod a ns podName containerName with
    | (Some o, None) => ([o], None)
    | (_, e) => ([], e)
    end.
Proof.
  intros Hget Hlist Hone.
  unfold analyzer.GetPod, selector.GetPodListByPodName. rewrite Hget, Hlist.
  rewrite <- (filter_nameMap selector.pod_Name) in Hone.
  case_decide as Hcn.
  - destruct (selector.GetTargetContainer _ _ _ _) as [[[r id] name] [e|]] eqn:Hgt.
    + eapply podNameLoop_err with (good := []) (rest := []); done.
    + apply podNameLoop_ok; [done|]. eexists. split; [reflexivity|].
      rewrite Hone. constructor; [|constructor]. by exists r, id, name.
  - assert (containerName = "") as -> by (by destruct (decide (containerName = ""))).
    by rewrite podNameLoop_plain, Hone.
Qed.

(** ** Nodes *)

Lemma nodeLabelLoop_as_nodeNameLoop (m : gmap string bool) (containerName : string)
    (items : list selector.Node) (result : list selector.NodeObject) :
  Forall (λ n, selector.map_get m (selector.node_Name n) = true) items →
  selector.nodeNameLoop ParseContainerID m containerName items result
  = analyzer.nodeLabelLoop ParseContainerID containerName items result.
Proof.
  intros Hall. revert result. induction Hall as [|n items Hn _ IH]; intros result;
    simpl; [done|].
  rewrite Hn. simpl. rewrite !IH.
  destruct (ParseContainerID containerName) as [[r id] [e|]]; [done|].
  by rewrite IH.
Qed.

Lemma nodeIPLoop_as_nodeNameLoop (mIP mName : gmap string bool)
    (containerName : string) (items : list selector.Node)
    (result : list selector.NodeObject) :
  Forall (λ n,
            selector.map_get mName (selector.node_Name n) = true
            ↔ selector.no_NodeInternalIP (selector.tmpNode n) ≠ ""
              ∧ selector.map_get mIP
                  (selector.no_NodeInternalIP (selector.tmpNode n)) = true) items →
  analyzer.nodeIPLoop ParseContainerID mIP containerName items result
  = selector.nodeNameLoop ParseContainerID mName containerName items result.
Proof.
  intros Hall. revert result. induction Hall as [|n items Hn _ IH]; intros result;
    simpl; [done|].
  rewrite tmpNode_scan in Hn |- *. simpl in Hn |- *.
  destruct (foldl analyzer.scanAddress ("", "") _) as [unitIP unitHostName].
  simpl in *.
  destruct (selector.map_get mName (selector.node_Name n)) eqn:Hname; simpl.
  - destruct (proj1 Hn eq_refl) as [Hip Hin].
    rewrite bool_decide_eq_false_2, Hin by done. simpl. rewrite !IH.
    destruct (ParseContainerID containerName) as [[r id] [e|]]; [done|].
    by rewrite IH.
  - destruct (bool_decide (unitIP = "")) eqn:Hip; simpl; [apply IH|].
    destruct (selector.map_get mIP unitIP) eqn:Hin; simpl; [|apply IH].
    apply bool_decide_eq_false in Hip.
    assert (false = true) as Habs by (by apply Hn). discriminate Habs.
Qed.

(** X11.  [GetNodeListByLabel] is [GetNodeListByNodeName] with every listed
    name requested: when the two listings are the same nodes and every
    listed node's name is in the name list, the two calls return the same
    objects or fail with the same error; in particular the label call, when
    it succeeds, returns every listed node in listing order. *)
Theorem GetNodeListByLabel_returns_every_listed_node (a : analyzer.ApiServer)
    (label : gmap string string) (containerName : string)
    (nodeList : list selector.Node) :
  selector.ApiServer_ListNodes (analyzer.lists a) [selector.MatchingLabels label]
    = (nodeList, None) →
  selector.ApiServer_ListNodes (analyzer.lists a) [] = (nodeList, None) →
  (∀ nodeName, Forall (λ n, selector.node_Name n ∈ nodeName) nodeList →
     GetNodeListByNodeName (analyzer.lists a) nodeName containerName
       = GetNodeListByLabel a label containerName) ∧
  (∀ objs, GetNodeListByLabel a label containerName = (objs, None) →
     selector.no_NodeName <$> objs = selector.node_Name <$> nodeList).
Proof.
  intros Hlabel Hall.
  assert (∀ nodeName, Forall (λ n, selector.node_Name n ∈ nodeName) nodeList →
            GetNodeListByNodeName (analyzer.lists a) nodeName containerName
            = GetNodeListByLabel a label containerName) as Hsame.
  { intros nodeName Hin.
    unfold analyzer.GetNodeListByLabel, selector.GetNodeListByNodeName.
    rewrite Hlabel, Hall. apply nodeLabelLoop_as_nodeNameLoop.
    eapply Forall_impl; [exact Hin|]. intros n Hn. by apply map_get_nameMap. }
  split; [exact Hsame|]. intros objs Hobjs.
  rewrite <- (Hsame (selector.node_Name <$> nodeList)) in Hobjs.
  - unfold selector.GetNodeListByNodeName in Hobjs. rewrite Hall in Hobjs.
    apply nodeNameLoop_names in Hobjs. simpl in Hobjs. rewrite Hobjs.
    apply filter_all, Forall_forall. intros k Hk. by apply map_get_nameMap.
  - apply Forall_forall. intros n Hn. by apply list_elem_of_fmap_2.
Qed.

(** X12.  Resolving nodes by IP and by name are the same resolution: when
    the requested names are exactly the names of the listed nodes that
    have an internal IP among the requested IPs, [GetNodeListByNodeIP]
    returns what [GetNodeListByNodeName] returns, object for object and
    error for error. *)
Theorem GetNodeListByNodeIP_agrees_with_by_name (a : analyzer.ApiServer)
    (nodeIP nodeName : list string) (containerName : string)
    (nodeList : list selector.Node) :
  selector.ApiServer_ListNodes (analyzer.lists a) [] = (nodeList, None) →
  Forall (λ n, selector.node_Name n ∈ nodeName
               ↔ selector.no_NodeInternalIP (selector.tmpNode n) ≠ ""
                 ∧ selector.no_NodeInternalIP (selector.tmpNode n) ∈ nodeIP)
         nodeList →
  GetNodeListByNodeIP a nodeIP containerName
  = GetNodeListByNodeName (analyzer.lists a) nodeName containerName.
Proof.
  intros Hlist Hall.
  unfold analyzer.GetNodeListByNodeIP, selector.GetNodeListByNodeName.
  rewrite Hlist. apply nodeIPLoop_as_nodeNameLoop.
  eapply Forall_impl; [exact Hall|]. intros n Hn. simpl.
  by rewrite !map_get_nameMap.
Qed.

Lemma nodeIPLoop_requested (m : gmap string bool) (containerName : string)
    (items : list selector.Node) (result objs : list selector.NodeObject) :
  analyzer.nodeIPLoop ParseContainerID m containerName items result = (objs, None) →
  ∃ new, objs = result ++ new
    ∧ Forall (λ o, selector.no_NodeInternalIP o ≠ ""
                   ∧ selector.map_get m (selector.no_NodeInternalIP o) = true) new
    ∧ (selector.no_NodeName <$> new) `sublist_of` (selector.node_Name <$> items).
Proof.
  revert result. induction items as [|n items IH]; intros result; simpl.
  - intros [= <-]. exists []. by rewrite app_nil_r.
  - destruct (foldl analyzer.scanAddress ("", "") _) as [unitIP unitHostName].
    destruct (bool_decide (unitIP = "")) eqn:Hip; simpl.
    { intros (new & -> & Hall & Hsub)%IH. exists new.
      repeat split; [done|]. by apply sublist_cons. }
    destruct (selector.map_get m unitIP) eqn:Hin; simpl.
    2:{ intros (new & -> & Hall & Hsub)%IH. exists new.
        repeat split; [done|]. by apply sublist_cons. }
    apply bool_decide_eq_false in Hip.
    case_decide.
    + destruct (ParseContainerID containerName) as [[r id] [e|]]; [discriminate|].
      intros (new & -> & Hall & Hsub)%IH. eexists (_ :: new).
      rewrite <- app_assoc. split; [reflexivity|]. split.
      * by constructor.
      * simpl. by apply sublist_skip.
    + intros (new & -> & Hall & Hsub)%IH. eexists (_ :: new).
      rewrite <- app_assoc. split; [reflexivity|]. split.
      * by constructor.
      * simpl. by apply sublist_skip.
Qed.

(** X13.  [GetNodeListByNodeIP] returns only nodes that have an internal IP,
    and only such whose internal IP was requested: a node without an
    internal address is never returned, not even when the empty string is
    among the requested IPs.  The returned nodes keep the listing's order. *)
Theorem GetNodeListByNodeIP_only_requested (a : analyzer.ApiServer)
    (nodeIP : list string) (containerName : string)
    (nodeList : list selector.Node) (objs : list selector.NodeObject) :
  selector.ApiServer_ListNodes (analyzer.lists a) [] = (nodeList, None) →
  GetNodeListByNodeIP a nodeIP containerName = (objs, None) →
  Forall (λ o, selector.no_NodeInternalIP o ≠ ""
               ∧ selector.no_NodeInternalIP o ∈ nodeIP) objs
  ∧ (selector.no_NodeName <$> objs) `sublist_of` (selector.node_Name <$> nodeList).
Proof.
  intros Hlist. unfold analyzer.GetNodeListByNodeIP. rewrite Hlist.
  intros (new & -> & Hall & Hsub)%nodeIPLoop_requested. simpl. split; [|done].
  eapply Forall_impl; [exact Hall|]. intros o [Hip Hin]. split; [done|].
  by apply map_get_nameMap.
Qed.

Lemma nodeNameLoop_none (m : gmap string bool) (containerName : string)
    (items : list selector.Node) (result : list selector.NodeObject) :
  Forall (λ n, selector.map_get m (selector.node_Name n) = false) items →
  selector.nodeNameLoop ParseContainerID m containerName items result = (result, None).
Proof.
  induction 1 as [|n items Hn _ IH]; simpl; [done|]. by rewrite Hn.
Qed.

Lemma nodeNameLoop_parse_error (m : gmap string bool) (containerName : string)
    (items : list selector.Node) (result : list selector.NodeObject) (r id e : string) :
  containerName ≠ "" →
  ParseContainerID containerName = (r, id, Some e) →
  Exists (λ n, selector.map_get m (selector.node_Name n) = true) items →
  selector.nodeNameLoop ParseContainerID m containerName items result
  = ([], Some ("parse container info error: " +:+ e)).
Proof.
  intros Hcn Hparse Hex. induction Hex as [n items Hn|n items _ IH]; simpl.
  - rewrite Hn. simpl. rewrite decide_True by done. by rewrite Hparse.
  - destruct (selector.map_get m (selector.node_Name n)); simpl; [|done].
    rewrite decide_True by done. by rewrite Hparse.
Qed.

Lemma nodeNameLoop_parsed (m : gmap string bool) (containerName : string)
    (items : list selector.Node) (result objs : list selector.NodeObject) :
  containerName ≠ "" →
  selector.nodeNameLoop ParseContainerID m containerName items result = (objs, None) →
  ∃ new, objs = result ++ new
    ∧ Forall (λ o, ParseContainerID containerName
                   = (selector.no_ContainerRuntime o, selector.no_ContainerID o, None))
             new.
Proof.
  intros Hcn. revert result. induction items as [|n items IH]; intros result; simpl.
  - intros [= <-]. exists []. by rewrite app_nil_r.
  - destruct (selector.map_get m (selector.node_Name n)); simpl; [|apply IH].
    rewrite decide_True by done.
    destruct (ParseContainerID containerName) as [[r id] [e|]] eqn:Hparse;
      [discriminate|].
    intros (new & -> & Hall)%IH. eexists (_ :: new). rewrite <- app_assoc.
    split; [reflexivity|]. by constructor.
Qed.

(** X14.  For nodes the container argument is itself the container id: every
    node [GetNodeListByNodeName] returns carries the runtime and id parsed
    from that one argument.  An argument that does not parse makes the call
    fail as soon as one listed node is requested, but goes unnoticed when
    none is: then the call succeeds with no nodes. *)
Theorem GetNodeListByNodeName_container_id (a : selector.Analyzer)
    (nodeName : list string) (containerName : string)
    (nodeList : list selector.Node) :
  selector.ApiServer_ListNodes a [] = (nodeList, None) →
  (Forall (λ n, selector.node_Name n ∉ nodeName) nodeList →
     GetNodeListByNodeName a nodeName containerName = ([], None)) ∧
  (containerName ≠ "" →
     Exists (λ n, selector.node_Name n ∈ nodeName) nodeList →
     ∀ r id e, ParseContainerID containerName = (r, id, Some e) →
       GetNodeListByNodeName a nodeName containerName
         = ([], Some ("parse container info error: " +:+ e))) ∧
  (containerName ≠ "" →
     ∀ objs, GetNodeListByNodeName a nodeName containerName = (objs, None) →
       Forall (λ o, ParseContainerID containerName
                    = (selector.no_ContainerRuntime o, selector.no_ContainerID o, None))
              objs).
Proof.
  intros Hlist. unfold selector.GetNodeListByNodeName. rewrite Hlist.
  split; [|split].
  - intros Hnone. apply nodeNameLoop_none.
    eapply Forall_impl; [exact Hnone|]. intros n Hn. simpl in Hn.
    destruct (selector.map_get _ _) eqn:Hg; [|done].
    by apply map_get_nameMap in Hg.
  - intros Hcn Hex r id e Hparse.
    eapply nodeNameLoop_parse_error; [done | done |].
    eapply Exists_impl; [exact Hex|]. intros n Hn. by apply map_get_nameMap.
  - intros Hcn objs (new & -> & Hall)%nodeNameLoop_parsed; done.
Qed.

End Analyzer_facts.

(** ** Deployments *)

Lemma deployNameLoop_filter (m : gmap string bool) (items : list analyzer.Deployment)
    (result : list analyzer.DeploymentObject) :
  analyzer.deployNameLoop m items result
  = result ++ (analyzer.deployInfo
                 <$> filter (λ d, selector.map_get m (analyzer.deploy_Name d) = true)
                            items).
Proof.
  revert result. induction items as [|d items IH]; intros result; simpl.
  - by rewrite app_nil_r.
  - rewrite filter_cons. destruct (selector.map_get m _) eqn:Hg; simpl.
    + by rewrite IH, <- app_assoc.
    + apply IH.
Qed.

(** X15.  [GetDeploymentListByName] fails only when the listing of the
    namespace fails.  Otherwise it returns the listed deployments whose
    name is requested, in listing order, each with the name and namespace
    the backend reported; a requested name that no listed deployment
    carries is passed over without an error, and requested lists with the
    same members give the same answer. *)
Theorem GetDeploymentListByName_intersects (a : analyzer.ApiServer)
    (namespace : string) (name : list string) :
  (∀ l e, analyzer.ApiServer_ListDeployments a [selector.InNamespace namespace]
            = (l, Some e) →
     analyzer.GetDeploymentListByName a namespace name
       = ([], Some ("list deployment info error: " +:+ e))) ∧
  (∀ deployList,
     analyzer.ApiServer_ListDeployments a [selector.InNamespace namespace]
       = (deployList, None) →
     analyzer.GetDeploymentListByName a namespace name
       = (analyzer.deployInfo
            <$> filter (λ d, analyzer.deploy_Name d ∈ name) deployList, None)) ∧
  (∀ name' : list string, (∀ k, k ∈ name' ↔ k ∈ name) →
     analyzer.GetDeploymentListByName a namespace name'
       = analyzer.GetDeploymentListByName a namespace name).
Proof.
  unfold analyzer.GetDeploymentListByName. split; [|split].
  - by intros l e ->.
  - intros deployList ->. rewrite deployNameLoop_filter. simpl.
    by rewrite (filter_nameMap analyzer.deploy_Name).
  - intros name' Hset.
    destruct (analyzer.ApiServer_ListDeployments a _) as [deployList [e|]]; [done|].
    rewrite !deployNameLoop_filter, !(filter_nameMap analyzer.deploy_Name).
    rewrite (list_filter_iff _ (λ d, analyzer.deploy_Name d ∈ name)); [done|].
    intros d. apply Hset.
Qed.

(** ** The analyzer on the concrete cluster *)

Lemma GetPodListByLabel_returns_every_listed_pod_witness :
  selector.GetPodListByPodName sample.FirstContainer sample.ParseContainerID
      (analyzer.lists cluster.api) "chaosmeta"
      ["chaosmeta-2"; "chaosmeta-1"; "chaosmeta-0"] ""
    = analyzer.GetPodListByLabel sample.FirstContainer sample.ParseContainerID
        cluster.api "chaosmeta" ∅ ""
  ∧ ∀ objs,
      analyzer.GetPodListByLabel sample.FirstContainer sample.ParseContainerID
          cluster.api "chaosmeta" ∅ "" = (objs, None) →
      selector.PodName <$> objs = ["chaosmeta-0"; "chaosmeta-1"; "chaosmeta-2"].
Proof.
  destruct (GetPodListByLabel_returns_every_listed_pod sample.FirstContainer
              sample.ParseContainerID cluster.api "chaosmeta" ∅ "" cluster.pods
              eq_refl) as [Hnames Hsame].
  split; [|exact Hnames].
  apply Hsame; [reflexivity|].
  compute_done.
Defined.

Lemma GetPod_agrees_with_GetPodListByPodName_witness :
  selector.GetPodListByPodName sample.FirstContainer sample.ParseContainerID
      (analyzer.lists cluster.api) "chaosmeta" ["chaosmeta-0"] "sidecar"
    = ([ selector.withContainer
           (selector.podInfo
              (sample.pod "chaosmeta-0" "1.2.3.4" "node-1" sample.statuses))
           "containerd" "a1b2" "sidecar" ], None).
Proof.
  rewrite (GetPod_agrees_with_GetPodListByPodName sample.FirstContainer
             sample.ParseContainerID cluster.api "chaosmeta" "chaosmeta-0" "sidecar"
             (sample.pod "chaosmeta-0" "1.2.3.4" "node-1" sample.statuses)
             cluster.pods eq_refl eq_refl).
  - vm_compute. reflexivity.
  - vm_compute. reflexivity.
Defined.

Lemma GetNodeListByLabel_returns_every_listed_node_witness :
  selector.GetNodeListByNodeName sample.ParseContainerID (analyzer.lists cluster.api)
      ["node-3"; "node-2"; "node-1"] "docker://g3g3g"
    = analyzer.GetNodeListByLabel sample.ParseContainerID cluster.api ∅ "docker://g3g3g".
Proof.
  apply (proj1 (GetNodeListByLabel_returns_every_listed_node sample.ParseContainerID
                  cluster.api ∅ "docker://g3g3g" cluster.nodes eq_refl eq_refl)).
  compute_done.
Defined.

Lemma GetNodeListByNodeIP_agrees_with_by_name_witness :
  analyzer.GetNodeListByNodeIP sample.ParseContainerID cluster.api
      ["2.2.2.2"; ""] ""
    = selector.GetNodeListByNodeName sample.ParseContainerID
        (analyzer.lists cluster.api) ["node-2"] "".
Proof.
  apply (GetNodeListByNodeIP_agrees_with_by_name sample.ParseContainerID cluster.api
           ["2.2.2.2"; ""] ["node-2"] "" cluster.nodes eq_refl).
  compute_done.
Defined.

Lemma GetNodeListByNodeIP_only_requested_witness :
  ∃ objs,
    analyzer.GetNodeListByNodeIP sample.ParseContainerID cluster.api
        ["2.2.2.2"; ""] "" = (objs, None)
    ∧ selector.no_NodeName <$> objs = ["node-2"]
    ∧ Forall (λ o, selector.no_NodeInternalIP o ≠ ""
                   ∧ selector.no_NodeInternalIP o ∈ ["2.2.2.2"; ""]) objs.
Proof.
  eexists. split; [vm_compute; reflexivity|]. split; [reflexivity|].
  apply (GetNodeListByNodeIP_only_requested sample.ParseContainerID cluster.api
           ["2.2.2.2"; ""] "" cluster.nodes _ eq_refl).
  vm_compute. reflexivity.
Defined.

Lemma GetNodeListByNodeName_container_id_witness :
  selector.GetNodeListByNodeName sample.ParseContainerID (analyzer.lists cluster.api)
      ["node-9"] "g3g3g" = ([], None)
  ∧ selector.GetNodeListByNodeName sample.ParseContainerID (analyzer.lists cluster.api)
      ["node-9"; "node-2"] "g3g3g"
    = ([], Some "parse container info error: unknown format: g3g3g").
Proof.
  split.
  - apply (proj1 (GetNodeListByNodeName_container_id sample.ParseContainerID
                    (analyzer.lists cluster.api) ["node-9"] "g3g3g" cluster.nodes
                    eq_refl)).
    compute_done.
  - apply (proj1 (proj2 (GetNodeListByNodeName_container_id sample.ParseContainerID
                    (analyzer.lists cluster.api) ["node-9"; "node-2"] "g3g3g"
                    cluster.nodes eq_refl)) ltac:(discriminate)) with (r := "") (id := "").
    + compute_done.
    + reflexivity.
Defined.

Lemma GetDeploymentListByName_intersects_witness :
  analyzer.GetDeploymentListByName cluster.api "chaosmeta" ["db"; "missing"; "db"]
    = ([ {| analyzer.DeploymentName := "db"; analyzer.do_Namespace := "chaosmeta" |} ],
       None).
Proof.
  rewrite (proj1 (proj2 (GetDeploymentListByName_intersects cluster.api "chaosmeta"
                           ["db"; "missing"; "db"])) cluster.deployments eq_refl).
  vm_compute. reflexivity.
Defined.

(** * Properties of the user service *)

Section User_facts.
Variable db : Type.
Variable GetUser : db → user.User → user.User * error.
Variable UpdateUser : db → user.User → db * error.
Variable InsertUser : db → user.User → db * user.User * error.
Variable DeleteUsersByIdList : db → list Z → db * error.
Variable UpdateUsersRole : db → list Z → string → db * error.
Variable UsersOrNamespacesDelete : db → list Z → db * error.
Variable DefaultAddUsers : db → Z → db * error.
Variable GenerateFromPassword : string → string * error.
Variable CompareHashAndPassword : string → string → error.
Variable GenerateToken : string → string → Z → string * error.
Variable VerifyToken : string → user.TokenClaims * error.
Variable ErrUnauthorized : string.
Variable model_AdminRole : string.
Variable now : Z.

Local Abbreviation Login :=
  (user.Login db GetUser UpdateUser CompareHashAndPassword GenerateToken
     ErrUnauthorized now).
Local Abbreviation IsAdmin := (user.IsAdmin db GetUser model_AdminRole).
Local Abbreviation DeleteList :=
  (user.DeleteList db GetUser DeleteUsersByIdList UsersOrNamespacesDelete
     model_AdminRole).
Local Abbreviation UpdateListRole :=
  (user.UpdateListRole db GetUser UpdateUsersRole model_AdminRole).
Local Abbreviation UpdateListNamespace :=
  (user.UpdateListNamespace db GetUser UpdateUsersRole model_AdminRole).
Local Abbreviation CheckToken := (user.CheckToken VerifyToken ErrUnauthorized).
Local Abbreviation Create :=
  (user.Create db GetUser UpdateUser InsertUser DefaultAddUsers GenerateFromPassword).
Local Abbreviation UpdatePassword :=
  (user.UpdatePassword db GetUser UpdateUser GenerateFromPassword ErrUnauthorized
     model_AdminRole).

Lemma Login_granted (s s' : db) (name password tocken refreshToken : string) :
  Login s name password = (tocken, refreshToken, None, s') →
  ∃ u, GetUser s (user.userWithEmail name) = (u, None)
    ∧ user.Disabled u = false ∧ user.IsDeleted u = false
    ∧ CompareHashAndPassword (user.Password u) password = None
    ∧ UpdateUser s (user.withLastLoginTime u now) = (s', None)
    ∧ GenerateToken name "access" 300000000000 = (tocken, None)
    ∧ GenerateToken name "refresh" 86400000000000 = (refreshToken, None).
Proof.
  unfold user.Login, user.VerifyPassword.
  destruct (GetUser s (user.userWithEmail name)) as [u [e|]]; [discriminate|].
  destruct (user.Disabled u) eqn:Hd; simpl; [discriminate|].
  destruct (user.IsDeleted u) eqn:Hdel; simpl; [discriminate|].
  case_bool_decide as Hpw; simpl; [|discriminate].
  destruct (UpdateUser s _) as [s1 [e|]] eqn:Hup; [discriminate|].
  change (5 * user.Minute) with 300000000000.
  change (user.Hour * 24) with 86400000000000.
  destruct (GenerateToken name user.GrantTypeAccess _) as [t1 [e|]] eqn:Ht1;
    [discriminate|].
  destruct (GenerateToken name user.GrantTypeRefresh _) as [t2 [e|]] eqn:Ht2;
    [discriminate|].
  intros [= <- <- <-]. exists u. done.
Qed.


(** X17.  [IsAdmin] holds exactly for an account that is found, is not
    disabled and has the admin role (whether it is marked deleted does not
    matter).  For anyone else [DeleteList], [UpdateListRole] and
    [UpdateListNamespace] answer "not admin" and leave the store as it was. *)
Theorem admin_only_operations (s : db) (name : string) :
  (IsAdmin s name = true
   ↔ ∃ u, GetUser s (user.userWithEmail name) = (u, None)
       ∧ user.Disabled u = false ∧ user.Role u = model_AdminRole) ∧
  (IsAdmin s name = false →
   ∀ ids role,
     DeleteList s name ids = (Some "not admin", s)
     ∧ UpdateListRole s name ids role = (Some "not admin", s)
     ∧ UpdateListNamespace s name ids role = (Some "not admin", s)).
Proof.
  split.
  - unfold user.IsAdmin.
    destruct (GetUser s (user.userWithEmail name)) as [u [e|]].
    + split; [discriminate | intros (u' & [=] & _)].
    + destruct (user.Disabled u) eqn:Hd.
      * split; [discriminate | intros (u' & [= <-] & Hd' & _); congruence].
      * rewrite bool_decide_eq_true. split.
        -- intros Hrole. by exists u.
        -- by intros (u' & [= <-] & _ & Hrole).
  - intros Hno ids role.
    unfold user.DeleteList, user.UpdateListRole, user.UpdateListNamespace.
    by rewrite Hno.
Qed.

(** X18.  [CheckToken] accepts a token only if it is non-empty and verifies
    with the access grant, and then returns the user name in its claims;
    every refusal is the unauthorized error.  So, when a generated token
    verifies to the name and grant it was generated for, [CheckToken]
    accepts the access token that [Login] issued and refuses the refresh
    token issued beside it. *)
Theorem CheckToken_accepts_access_tokens_only :
  (∀ token username, CheckToken token = (username, None) →
     token ≠ "" ∧ ∃ c, VerifyToken token = (c, None)
                       ∧ user.GrantType c = "access" ∧ username = user.Username c) ∧
  (∀ token username e, CheckToken token = (username, Some e) →
     username = "" ∧ e = ErrUnauthorized) ∧
  ((∀ name grantType d token,
      grantType = "access" ∨ grantType = "refresh" →
      GenerateToken name grantType d = (token, None) →
      token ≠ ""
      ∧ VerifyToken token
        = ({| user.Username := name; user.GrantType := grantType |}, None)) →
   ∀ s name password tocken refreshToken s',
     Login s name password = (tocken, refreshToken, None, s') →
     CheckToken tocken = (name, None)
     ∧ CheckToken refreshToken = ("", Some ErrUnauthorized)).
Proof.
  split; [|split].
  - intros token username. unfold user.CheckToken.
    case_decide as Ht; [discriminate|].
    destruct (VerifyToken token) as [c [e|]]; [discriminate|].
    case_decide as Hg; [discriminate|]. intros [= <-].
    split; [done|]. exists c. split; [done|]. split; [|done].
    by destruct (decide (user.GrantType c = user.GrantTypeAccess)).
  - intros token username e. unfold user.CheckToken.
    case_decide as Ht; [by intros [= <- <-]|].
    destruct (VerifyToken token) as [c [e'|]]; [by intros [= <- <-]|].
    case_decide as Hg; [by intros [= <- <-] | discriminate].
  - intros Hround s name password tocken refreshToken s' Hlogin.
    apply Login_granted in Hlogin
      as (u & _ & _ & _ & _ & _ & Haccess & Hrefresh).
    apply Hround in Haccess as [Hne1 Hv1]; [|by left].
    apply Hround in Hrefresh as [Hne2 Hv2]; [|by right].
    unfold user.CheckToken. rewrite !decide_False, Hv1, Hv2 by done. simpl.
    done.
Qed.

(** X19.  [Create] never writes the password itself, only its hash, and
    writes nothing when hashing fails.  For a name whose account exists and
    is marked deleted it brings that account back: same id, same role (the
    role asked for is ignored), the new hash, no longer deleted, and no new
    row.  Otherwise it inserts a fresh enabled account with the role asked
    for and adds the id the store gave it to the default namespace. *)
Theorem Create_revives_or_inserts (s : db) (name password role : string) :
  (∀ h e, GenerateFromPassword password = (h, Some e) →
     Create s name password role = (0, Some e, s)) ∧
  (∀ hash u, GenerateFromPassword password = (hash, None) →
     GetUser s (user.userWithEmail name) = (u, None) → user.IsDeleted u = true →
     Create s name password role
       = let written :=
           {| user.ID := user.ID u; user.Email := user.Email u;
              user.Password := hash; user.Role := user.Role u;
              user.Disabled := user.Disabled u; user.IsDeleted := false;
              user.LastLoginTime := user.LastLoginTime u |} in
         (user.ID u, (UpdateUser s written).2, (UpdateUser s written).1)) ∧
  (∀ hash u oe, GenerateFromPassword password = (hash, None) →
     GetUser s (user.userWithEmail name) = (u, oe) →
     oe ≠ None ∨ user.IsDeleted u = false →
     let fresh :=
       {| user.ID := 0; user.Email := name; user.Password := hash;
          user.Role := role; user.Disabled := false; user.IsDeleted := false;
          user.LastLoginTime := 0 |} in
     (∀ s1 stored e, InsertUser s fresh = (s1, stored, Some e) →
        Create s name password role = (0, Some e, s1)) ∧
     (∀ s1 stored, InsertUser s fresh = (s1, stored, None) →
        Create s name password role
          = (user.ID stored, (DefaultAddUsers s1 (user.ID stored)).2,
             (DefaultAddUsers s1 (user.ID stored)).1))).
Proof.
  unfold user.Create, user.HashPassword, user.Get. split; [|split].
  - by intros h e ->.
  - intros hash u -> -> Hdel. rewrite Hdel. simpl.
    unfold user.withPassword, user.undeleted. simpl.
    by destruct (UpdateUser s _).
  - intros hash u oe -> -> Hfresh. simpl.
    assert (match (match oe with
                   | Some e => (None, Some e)
                   | None => (Some u, None)
                   end : option user.User * error) with
            | (Some userGet, None) =>
                if user.IsDeleted userGet then Some userGet else None
            | _ => None
            end = None) as ->.
    { destruct oe as [e|]; [done|]. destruct Hfresh as [?| ->]; done. }
    split.
    + by intros s1 stored e ->.
    + intros s1 stored ->. by destruct (DefaultAddUsers s1 _).
Qed.

(** X20.  [UpdatePassword] refuses a disabled account and passes on a failed
    lookup, touching nothing.  When the store's lookup returns the account
    of the name asked for, the admin test in it never decides anything: the
    password of an enabled account is replaced by the hash of the new one,
    and nothing else in the account changes, whether or not it is an
    admin's. *)
Theorem UpdatePassword_replaces_the_hash (s : db) (name newPassword : string) :
  (∀ u e, GetUser s (user.userWithEmail name) = (u, Some e) →
     UpdatePassword s name newPassword = (Some e, s)) ∧
  (∀ u, GetUser s (user.userWithEmail name) = (u, None) →
     user.Disabled u = true →
     UpdatePassword s name newPassword = (Some ErrUnauthorized, s)) ∧
  (∀ u hash, GetUser s (user.userWithEmail name) = (u, None) →
     user.Email u = name → user.Disabled u = false →
     GenerateFromPassword newPassword = (hash, None) →
     UpdatePassword s name newPassword
       = let written :=
           {| user.ID := user.ID u; user.Email := user.Email u;
              user.Password := hash; user.Role := user.Role u;
              user.Disabled := user.Disabled u; user.IsDeleted := user.IsDeleted u;
              user.LastLoginTime := user.LastLoginTime u |} in
         ((UpdateUser s written).2, (UpdateUser s written).1)).
Proof.
  unfold user.UpdatePassword, user.Get. split; [|split].
  - by intros u e ->.
  - intros u Hget Hd. by rewrite Hget, Hd.
  - intros u hash Hget Hmail Hd Hhash. rewrite Hget, Hd.
    rewrite (bool_decide_eq_false_2 (name ≠ user.Email u))
      by (intros H; apply H; symmetry; exact Hmail).
    rewrite andb_false_r. unfold user.HashPassword. rewrite Hhash.
    unfold user.withPassword. simpl. rewrite Hd. by destruct (UpdateUser s _).
Qed.

End User_facts.

(** ** The user service on the concrete store *)


Lemma admin_only_operations_witness :
  user.DeleteList store.db store.GetUser store.DeleteUsersByIdList
      store.UsersOrNamespacesDelete "admin" store.users "bob" [2]
    = (Some "not admin", store.users)
  ∧ user.UpdateListRole store.db store.GetUser store.UpdateUsersRole "admin"
      store.users "ann" [2] "admin"
    = (Some "not admin", store.users).
Proof.
  split.
  - apply (proj2 (admin_only_operations store.db store.GetUser
                    store.DeleteUsersByIdList store.UpdateUsersRole
                    store.UsersOrNamespacesDelete "admin" store.users "bob")
             eq_refl [2] "").
  - apply (proj2 (admin_only_operations store.db store.GetUser
                    store.DeleteUsersByIdList store.UpdateUsersRole
                    store.UsersOrNamespacesDelete "admin" store.users "ann")
             eq_refl [2] "admin").
Defined.

Lemma store_tokens_round_trip (name grantType : string) (d : Z) (token : string) :
  grantType = "access" ∨ grantType = "refresh" →
  store.GenerateToken name grantType d = (token, None) →
  token ≠ ""
  ∧ store.VerifyToken token
    = ({| user.Username := name; user.GrantType := grantType |}, None).
Proof.
  unfold store.GenerateToken, store.VerifyToken.
  intros [-> | ->] [= <-]; (split; [discriminate|]); reflexivity.
Qed.

Lemma CheckToken_accepts_access_tokens_only_witness :
  user.CheckToken store.VerifyToken store.ErrUnauthorized "access:ann" = ("ann", None)
  ∧ user.CheckToken store.VerifyToken store.ErrUnauthorized "refresh:ann"
    = ("", Some "unauthorized").
Proof.
  apply (proj2 (proj2 (CheckToken_accepts_access_tokens_only store.db store.GetUser
                         store.UpdateUser store.CompareHashAndPassword
                         store.GenerateToken store.VerifyToken store.ErrUnauthorized
                         1700000000))
           store_tokens_round_trip store.users "ann" "s3cret" "access:ann" "refresh:ann"
           (<[1%nat := user.withLastLoginTime
                         (store.account 2 "ann" "s3cret" "normal" false false)
                         1700000000]> store.users)).
  reflexivity.
Defined.

Lemma Create_revives_or_inserts_witness :
  user.Create store.db store.GetUser store.UpdateUser store.InsertUser
      store.DefaultAddUsers store.GenerateFromPassword store.users "eve" "n3w" "admin"
    = (4, None,
       <[3%nat := {| user.ID := 4; user.Email := "eve"; user.Password := "h(n3w)";
                     user.Role := "normal"; user.Disabled := false;
                     user.IsDeleted := false; user.LastLoginTime := 0 |}]>
         store.users).
Proof.
  rewrite (proj1 (proj2 (Create_revives_or_inserts store.db store.GetUser
                           store.UpdateUser store.InsertUser store.DefaultAddUsers
                           store.GenerateFromPassword store.users "eve" "n3w" "admin"))
             "h(n3w)" (store.account 4 "eve" "old" "normal" false true)
             eq_refl eq_refl eq_refl).
  reflexivity.
Defined.

Lemma UpdatePassword_replaces_the_hash_witness :
  user.UpdatePassword store.db store.GetUser store.UpdateUser
      store.GenerateFromPassword store.ErrUnauthorized "admin" store.users "ann" "n3w"
    = (None,
       <[1%nat := {| user.ID := 2; user.Email := "ann"; user.Password := "h(n3w)";
                     user.Role := "normal"; user.Disabled := false;
                     user.IsDeleted := false; user.LastLoginTime := 0 |}]>
         store.users)
  ∧ user.UpdatePassword store.db store.GetUser store.UpdateUser
      store.GenerateFromPassword store.ErrUnauthorized "admin" store.users "bob" "n3w"
    = (Some "unauthorized", store.users).
Proof.
  split.
  - rewrite (proj2 (proj2 (UpdatePassword_replaces_the_hash store.db store.GetUser
                             store.UpdateUser store.GenerateFromPassword
                             store.ErrUnauthorized "admin" store.users "ann" "n3w"))
               (store.account 2 "ann" "s3cret" "normal" false false) "h(n3w)"
               eq_refl eq_refl eq_refl eq_refl).
    reflexivity.
  - apply (proj1 (proj2 (UpdatePassword_replaces_the_hash store.db store.GetUser
                           store.UpdateUser store.GenerateFromPassword
                           store.ErrUnauthorized "admin" store.users "bob" "n3w"))
             (store.account 3 "bob" "hunter2" "admin" true false) eq_refl eq_refl).
Defined.

(** ** The executor and the address scan on concrete inputs *)

Lemma waitProExec_succeeds_iff_witness :
  ∃ n : nat, (n < 3)%nat
    ∧ strings.Contains ((sample.slowSuccess n).1 +:+ (sample.slowSuccess n).2)
        "[success]".
Proof.
  destruct (proj1 (waitProExec_succeeds_iff 3 sample.slowSuccess) eq_refl)
    as (n & Hn & _ & _ & Hs & _).
  by exists n.
Defined.

Lemma ExecContainer_spawns_at_most_once_witness :
  let res := cmdexec.ExecContainer sample.os sample.NoPid sample.GetToolPath
               (Some sample.dockerClient, None) 5 "cpu burn" "docker" "g3g3g" "pid"
               [(["/bin/bash"; "-c"; "true"], 77)] in
  ∃ child, res.2 = [(["/bin/bash"; "-c"; "true"], 77);
                    (["/bin/bash"; "-c";
                      "/opt/chaosmeta/tools/chaosmeta_execns 4242 pid cpu burn"], child)]
           ∧ res.1 = cmdexec.Returned (child, None).
Proof.
  intros res.
  destruct (ExecContainer_spawns_at_most_once sample.os sample.NoPid
              sample.GetToolPath (Some sample.dockerClient, None) 5 "cpu burn"
              "docker" "g3g3g" "pid" [(["/bin/bash"; "-c"; "true"], 77)])
    as [[Hsame _]|(targetPid & child & Hadd & Hpid)].
  - vm_compute in Hsame. discriminate Hsame.
  - assert (5151 = child) as <- by (apply Hpid with (err := None); reflexivity).
    exists 5151. split; reflexivity.
Defined.

Lemma tmpNode_last_address_wins_witness :
  selector.no_NodeInternalIP
    (selector.tmpNode
       {| selector.node_Name := "node-7";
          selector.node_Status_Addresses :=
            [ {| selector.addr_Type := "InternalIP"; selector.addr_Address := "10.0.0.1" |};
              {| selector.addr_Type := "ExternalIP"; selector.addr_Address := "8.8.8.8" |};
              {| selector.addr_Type := "InternalIP"; selector.addr_Address := "10.0.0.2" |} ] |})
  = "10.0.0.2".
Proof.
  rewrite (proj1 (tmpNode_last_address_wins _)). reflexivity.
Defined.
